(** * Currency converter core: rate cache, rate orchestrator, conversion engine

    A shallow embedding of the TypeScript sources under [lib/api],
    [lib/conversion], [lib/constants], [lib/types], [lib/utils] and of the
    conversion hook of [lib/hooks], and the properties of the design
    document checked against it.

    Conventions of the embedding:
    - a JavaScript [number] is an IEEE 754 binary64 value, taken from the
      Standard Library's executable specification [SpecFloat] at precision 53
      and maximal exponent 1024;
    - epoch times ([Date.now()]) and durations are integers of milliseconds;
    - a string is a sequence of bytes (UTF-8 for the non-ASCII currency
      symbols); [toLowerCase] is modelled on the ASCII letters, which is
      all an ISO 4217 code contains;
    - a [Map] is a finite map; a plain object used as a dictionary
      ([Record<CurrencyCode, T>]) is the finite map of its own properties,
      and a read by key goes on to the properties it inherits;
    - a function that can [throw] returns a [JSResult]; an [async] function
      is a computation over the [World] (clock, cache singleton, network,
      event log) that ends in a resolved or rejected outcome. *)

From Stdlib Require Import ZArith String Ascii List Bool Lia DecimalString.
From Stdlib Require Import DecimalFacts DecimalN.
From Stdlib Require Import Floats.SpecFloat.
From stdpp Require Import base option gmap strings list.

Local Open Scope string_scope.
Local Open Scope Z_scope.

(** ** JavaScript numbers *)

Module Number.

Definition prec : Z := 53.
Definition emax : Z := 1024.

Definition number : Type := spec_float.

(** The double nearest to the integer [n] (exact up to 2^53). *)
Definition ofZ (n : Z) : number := binary_normalize prec emax n 0 false.

(** The double nearest to [m * 2^e]. *)
Definition dyadic (m e : Z) : number := binary_normalize prec emax m e false.

Definition mul (x y : number) : number := SFmul prec emax x y.
Definition div (x y : number) : number := SFdiv prec emax x y.

(** The double denoted by the decimal literal [n / 10^d] (for [n] and
    [10^d] exactly representable, the correctly rounded quotient). *)
Definition decimal (n : Z) (d : nat) : number :=
  div (ofZ n) (ofZ (10 ^ Z.of_nat d)).

(** [x == y] on numbers: NaN differs from everything, [+0 == -0]. *)
Definition eqb (x y : number) : bool := SFeqb x y.

(** [x < y] on numbers: false when either is NaN. *)
Definition ltb (x y : number) : bool := SFltb x y.

Definition isFinite (x : number) : bool :=
  match x with
  | S754_zero _ | S754_finite _ _ _ => true
  | S754_infinity _ | S754_nan => false
  end.

Definition isNaN (x : number) : bool :=
  match x with S754_nan => true | _ => false end.

(** A double as it can occur at run time: canonical mantissa and
    exponent in range. *)
Definition wf (x : number) : bool := valid_binary prec emax x.

Definition MAX_SAFE_INTEGER : number := ofZ (2 ^ 53 - 1).

(** [Math.abs]. *)
Definition Math_abs (x : number) : number := SFabs x.

(** [Math.round]: the integral double closest to [x], ties towards
    +infinity; NaN, the infinities and the zeros are returned as they are,
    and a result of magnitude zero keeps the sign of [x]. *)
Definition Math_round (x : number) : number :=
  match x with
  | S754_finite s m e =>
      if 0 <=? e then x
      else
        let d := 2 ^ (- e) in
        let v := if s then Z.neg m else Z.pos m in
        let n := (2 * v + d) `div` (2 * d) in
        if n =? 0 then S754_zero s else ofZ n
  | _ => x
  end.

(** [Math.pow(base, exponent)] for an integer base and a non-negative
    integer exponent: the double nearest to the power (exact for the powers
    of ten up to 10^22). *)
Definition Math_pow (base : Z) (exponent : nat) : number :=
  ofZ (base ^ Z.of_nat exponent).

End Number.

Export Number.

(** ** lib/conversion/calculate.ts *)

Definition roundToDecimals (value : number) (decimals : nat) : number :=
  div (Math_round (mul value (Math_pow 10 decimals))) (Math_pow 10 decimals).

Definition roundToMinorUnit (value : number) (minorUnit : nat) : number :=
  roundToDecimals value minorUnit.

Definition convertAmount (amount rate : number) : number := mul amount rate.

Definition isSafeNumber (value : number) : bool :=
  isFinite value && negb (isNaN value)
  && SFleb (Math_abs value) MAX_SAFE_INTEGER.


(** ** Strings *)

Definition isUpperAscii (c : ascii) : bool :=
  let n := nat_of_ascii c in (65 <=? n)%nat && (n <=? 90)%nat.

Definition isLowerAscii (c : ascii) : bool :=
  let n := nat_of_ascii c in (97 <=? n)%nat && (n <=? 122)%nat.

Definition lowerAscii (c : ascii) : ascii :=
  if isUpperAscii c then ascii_of_nat (nat_of_ascii c + 32) else c.

(** [String.prototype.toLowerCase] on ASCII text. *)
Fixpoint toLowerCase (s : string) : string :=
  match s with
  | EmptyString => EmptyString
  | String c rest => String (lowerAscii c) (toLowerCase rest)
  end.

(** Two characters that differ at most in the case of an ASCII letter. *)
Definition sameLetter (c1 c2 : ascii) : bool :=
  Ascii.eqb c1 c2
  || (isUpperAscii c1 && isLowerAscii c2
      && (nat_of_ascii c2 =? nat_of_ascii c1 + 32)%nat)
  || (isLowerAscii c1 && isUpperAscii c2
      && (nat_of_ascii c1 =? nat_of_ascii c2 + 32)%nat).

(** Equality of two codes up to the case of their letters. *)
Fixpoint equalsIgnoreCase (a b : string) : bool :=
  match a, b with
  | EmptyString, EmptyString => true
  | String c1 a', String c2 b' => sameLetter c1 c2 && equalsIgnoreCase a' b'
  | _, _ => false
  end.

(** ** lib/constants/config.ts *)

Definition RATE_CACHE_DURATION : Z := 5 * 60 * 1000.
Definition STALE_CACHE_THRESHOLD : Z := 24 * 60 * 60 * 1000.
Definition DEBOUNCE_DELAY : Z := 100.
Definition RETRY_ATTEMPTS : nat := 2.
Definition RETRY_DELAYS : list Z := [200; 400].
Definition API_TIMEOUT : Z := 5000.
Definition MAX_INPUT_LENGTH : nat := 15.
Definition DECIMAL_PRECISION : nat := 6.
Definition API_REFRESH_INTERVAL : Z := 5 * 60 * 1000.

Module STORAGE_KEYS.
Definition RATE_CACHE : string := "currency_converter_rate_cache".
Definition USER_PREFERENCES : string := "currency_converter_preferences".
End STORAGE_KEYS.

(** ** lib/types/index.ts *)

Definition CurrencyCode : Type := string.

Record Currency := {
  code : CurrencyCode;
  name : string;
  symbol : string;
  minorUnit : nat;
  flag : option string
}.

Record ExchangeRate := {
  base : CurrencyCode;
  timestamp : Z;
  rates : gmap string number
}.

Record CachedRates := {
  data : ExchangeRate;
  cachedAt : Z;
  expiresAt : Z
}.

Inductive RateSource := memory | cache | network | stale.

Record ApiResponse (T : Type) := {
  response_data : T;
  source : RateSource
}.
Arguments response_data {T} _.
Arguments source {T} _.

Record ValidationResult := {
  valid : bool;
  error : option string;
  value : option number
}.

(** ** lib/types/errors.ts *)

Inductive RateFetchCode :=
  NETWORK_ERROR | API_ERROR | TIMEOUT | INVALID_RESPONSE | RATE_LIMIT.

Inductive CacheCode :=
  QUOTA_EXCEEDED | ACCESS_DENIED | PARSE_ERROR | WRITE_ERROR.

(** The exceptions of the program: the built-in [Error] and [RangeError],
    and the [AppError] subclasses with their code and the [Date.now()] of
    their construction. *)
Inductive JSError :=
  | Error (message : string)
  | RangeError (message : string)
  | RateFetchError (message : string) (code : RateFetchCode) (timestamp : Z)
  | CacheError (message : string) (code : CacheCode) (timestamp : Z).

Definition isRateFetchError (e : JSError) : bool :=
  match e with RateFetchError _ _ _ => true | _ => false end.

(** A synchronous call either returns or throws. *)
Inductive JSResult (A : Type) :=
  | Return (a : A)
  | Throw (e : JSError).
Arguments Return {A} _.
Arguments Throw {A} _.

Definition bindR {A B} (r : JSResult A) (k : A -> JSResult B) : JSResult B :=
  match r with
  | Return a => k a
  | Throw e => Throw e
  end.

Notation "'try!' x ':=' c 'in' k" := (bindR c (fun x => k))
  (at level 10, x name, c at level 100, k at level 200).

(** ** lib/api/rateCache.ts *)

Module RateCache.

(** The instance state: the in-memory tier, keyed by cache key. *)
Record t := { memoryCache : gmap string CachedRates }.

Definition new : t := {| memoryCache := ∅ |}.

Definition getCacheKey (baseCurrency : CurrencyCode) : string :=
  STORAGE_KEYS.RATE_CACHE ++ "_" ++ toLowerCase baseCurrency.

(** [get]: the key is computed, both look-ups are still to be written,
    and the method returns [null]. *)
Definition get (this : t) (baseCurrency : CurrencyCode)
  : option CachedRates :=
  let key := getCacheKey baseCurrency in
  None.

(** [set] at clock reading [now]: the entry is built and stored nowhere. *)
Definition set (this : t) (now : Z) (baseCurrency : CurrencyCode)
    (data : ExchangeRate) : t :=
  let key := getCacheKey baseCurrency in
  let cachedData :=
    {| data := data; cachedAt := now;
       expiresAt := now + RATE_CACHE_DURATION |} in
  this.

Definition isValid (this : t) (now : Z) (baseCurrency : CurrencyCode)
  : bool :=
  match get this baseCurrency with
  | None => false
  | Some cached => false
  end.

Definition isStale (this : t) (now : Z) (baseCurrency : CurrencyCode)
  : bool :=
  match get this baseCurrency with
  | None => false
  | Some cached =>
      let age := now - cachedAt cached in
      false
  end.

Definition clear (this : t) : t := {| memoryCache := ∅ |}.

Definition clearCurrency (this : t) (baseCurrency : CurrencyCode) : t :=
  let key := getCacheKey baseCurrency in
  this.

End RateCache.

(** ** Asynchronous functions *)

(** What one request to the rate provider would meet. *)
Inductive NetReply :=
  | NetFailure (code : RateFetchCode)
  | NetStatus (status : Z)
  | NetBody (body : ExchangeRate).

Inductive Event :=
  | EvRequest (url : string)
  | EvSleep (ms : Z).

(** The environment of an asynchronous call: the clock, the process-wide
    cache instance, the replies successive requests would get, the
    number of times the fetcher was entered and the trace of requests and
    timer waits. *)
Record World := {
  now : Z;
  rateCache : RateCache.t;
  provider : list NetReply;
  fetcherCalls : nat;
  trace : list Event
}.

Inductive Outcome (A : Type) :=
  | Resolved (a : A)
  | Rejected (e : JSError).
Arguments Resolved {A} _.
Arguments Rejected {A} _.

Definition Async (A : Type) : Type := World -> Outcome A * World.

Definition resolve {A} (a : A) : Async A := fun w => (Resolved a, w).
Definition reject {A} (e : JSError) : Async A := fun w => (Rejected e, w).

Definition await {A B} (c : Async A) (k : A -> Async B) : Async B :=
  fun w =>
    match c w with
    | (Resolved a, w') => k a w'
    | (Rejected e, w') => (Rejected e, w')
    end.

Definition Date_now : Async Z := fun w => (Resolved (now w), w).

Definition enterFetcher : Async unit :=
  fun w =>
    (Resolved tt,
     {| now := now w; rateCache := rateCache w; provider := provider w;
        fetcherCalls := S (fetcherCalls w); trace := trace w |}).

Notation "'await!' x ':=' c 'in' k" := (await c (fun x => k))
  (at level 10, x name, c at level 100, k at level 200).

(** ** lib/api/fetchRates.ts *)

(** [sleep ms]: resolves once the timer has fired. *)
Definition sleep (ms : Z) : Async unit :=
  fun w =>
    (Resolved tt,
     {| now := now w + Z.max 0 ms; rateCache := rateCache w;
        provider := provider w; fetcherCalls := fetcherCalls w;
        trace := trace w ++ [EvSleep ms] |}).

Definition fetchWithTimeout (url : string) (timeout : Z) : Async NetReply :=
  reject (Error "fetchWithTimeout not implemented").

Definition validateRateResponse (reply : NetReply) : bool := false.

Definition fetchExchangeRates (baseCurrency : CurrencyCode)
  : Async ExchangeRate :=
  await! _ := enterFetcher in
  await! t := Date_now in
  reject (RateFetchError "fetchExchangeRates not implemented" API_ERROR t).

(** ** lib/api/index.ts *)

Definition getRates (baseCurrency : CurrencyCode)
  : Async (ApiResponse ExchangeRate) :=
  await! t := Date_now in
  reject (RateFetchError "getRates not implemented" API_ERROR t).

Definition refreshRates (baseCurrency : CurrencyCode) : Async ExchangeRate :=
  await! t := Date_now in
  reject (RateFetchError "refreshRates not implemented" API_ERROR t).

Definition preloadRates (currencies : list CurrencyCode) : Async unit :=
  resolve tt.

(** ** lib/conversion/crossRate.ts *)

Definition calculateCrossRate (fromCurrency toCurrency : CurrencyCode)
    (rates : gmap string number) (baseCurrency : CurrencyCode)
  : JSResult number :=
  Throw (Error "calculateCrossRate not implemented").

Definition getRate (currency : CurrencyCode) (rates : gmap string number)
  : JSResult number :=
  Throw (Error "getRate not implemented").

(** ** lib/conversion/validate.ts *)

Definition validateAmount (input : string) : ValidationResult :=
  {| valid := false;
     error := Some "validateAmount not implemented";
     value := None |}.

(** ** lib/constants/currencies.ts *)

Definition mkCurrency (code name symbol : string) (minorUnit : nat)
    (flag : string) : Currency :=
  {| code := code; name := name; symbol := symbol; minorUnit := minorUnit;
     flag := Some flag |}.

Definition CURRENCIES : list Currency := [
    mkCurrency "USD" "US Dollar" "$" 2 "🇺🇸";
    mkCurrency "EUR" "Euro" "€" 2 "🇪🇺";
    mkCurrency "GBP" "British Pound" "£" 2 "🇬🇧";
    mkCurrency "JPY" "Japanese Yen" "¥" 0 "🇯🇵";
    mkCurrency "CAD" "Canadian Dollar" "CA$" 2 "🇨🇦";
    mkCurrency "AUD" "Australian Dollar" "A$" 2 "🇦🇺";
    mkCurrency "CHF" "Swiss Franc" "CHF" 2 "🇨🇭";
    mkCurrency "CNY" "Chinese Yuan" "¥" 2 "🇨🇳";
    mkCurrency "INR" "Indian Rupee" "₹" 2 "🇮🇳";
    mkCurrency "SGD" "Singapore Dollar" "S$" 2 "🇸🇬";
    mkCurrency "NZD" "New Zealand Dollar" "NZ$" 2 "🇳🇿";
    mkCurrency "HKD" "Hong Kong Dollar" "HK$" 2 "🇭🇰";
    mkCurrency "SEK" "Swedish Krona" "kr" 2 "🇸🇪";
    mkCurrency "NOK" "Norwegian Krone" "kr" 2 "🇳🇴";
    mkCurrency "DKK" "Danish Krone" "kr" 2 "🇩🇰";
    mkCurrency "KRW" "South Korean Won" "₩" 0 "🇰🇷";
    mkCurrency "MXN" "Mexican Peso" "MX$" 2 "🇲🇽";
    mkCurrency "BRL" "Brazilian Real" "R$" 2 "🇧🇷";
    mkCurrency "ZAR" "South African Rand" "R" 2 "🇿🇦";
    mkCurrency "RUB" "Russian Ruble" "₽" 2 "🇷🇺";
    mkCurrency "TRY" "Turkish Lira" "₺" 2 "🇹🇷";
    mkCurrency "THB" "Thai Baht" "฿" 2 "🇹🇭";
    mkCurrency "IDR" "Indonesian Rupiah" "Rp" 2 "🇮🇩";
    mkCurrency "MYR" "Malaysian Ringgit" "RM" 2 "🇲🇾";
    mkCurrency "PHP" "Philippine Peso" "₱" 2 "🇵🇭";
    mkCurrency "PLN" "Polish Zloty" "zł" 2 "🇵🇱";
    mkCurrency "CZK" "Czech Koruna" "Kč" 2 "🇨🇿";
    mkCurrency "ILS" "Israeli Shekel" "₪" 2 "🇮🇱";
    mkCurrency "AED" "UAE Dirham" "د.إ" 2 "🇦🇪";
    mkCurrency "SAR" "Saudi Riyal" "﷼" 2 "🇸🇦"
].

(** *** Plain objects as dictionaries of currencies

    An object written [{}] has its own properties and inherits those of
    [Object.prototype].  An assignment [map[key] = currency] stores an own
    property, except under the key ["__proto__"], where it stores nothing
    and makes [currency] the prototype.  A read [map[key]] yields the own
    property of that name, else the one inherited. *)

(** The names of the members of [Object.prototype] (in an environment
    that adds none). *)
Definition Object_prototype_keys : list string :=
  ["constructor"; "hasOwnProperty"; "isPrototypeOf"; "propertyIsEnumerable";
   "toLocaleString"; "toString"; "valueOf"; "__proto__";
   "__defineGetter__"; "__defineSetter__"; "__lookupGetter__";
   "__lookupSetter__"].

Record Dictionary := {
  entries : gmap string Currency;
  prototype : option Currency
}.

(** [{}]: no entry, and [Object.prototype] for prototype. *)
Definition emptyObject : Dictionary := {| entries := ∅; prototype := None |}.

(** [map[key] = currency]. *)
Definition assign (map : Dictionary) (key : string) (currency : Currency)
    : Dictionary :=
  if String.eqb key "__proto__"
  then {| entries := entries map; prototype := Some currency |}
  else {| entries := <[key := currency]> (entries map);
          prototype := prototype map |}.

(** What a read yields when it is not [undefined]. *)
Inductive Member :=
  | stored (currency : Currency)
      (** a currency object: an entry, or the prototype read as
          ["__proto__"] *)
  | text (s : string)
      (** a string: a field of a prototype currency *)
  | count (n : nat)
      (** a number: the [minorUnit] of a prototype currency *)
  | builtin (key : string).
      (** a member of [Object.prototype]: a function, or for
          ["__proto__"] that object itself *)

Definition ofObjectPrototype (key : string) : option Member :=
  if existsb (String.eqb key) Object_prototype_keys
  then Some (builtin key)
  else None.

(** The own properties of a currency object. *)
Definition ownField (p : Currency) (key : string) : option Member :=
  if String.eqb key "code" then Some (text (code p))
  else if String.eqb key "name" then Some (text (name p))
  else if String.eqb key "symbol" then Some (text (symbol p))
  else if String.eqb key "minorUnit" then Some (count (minorUnit p))
  else if String.eqb key "flag" then option_map text (flag p)
  else None.

(** [map[key]]; [None] is [undefined]. *)
Definition read (map : Dictionary) (key : string) : option Member :=
  match entries map !! key with
  | Some currency => Some (stored currency)
  | None =>
      match prototype map with
      | None => ofObjectPrototype key
      | Some p =>
          if String.eqb key "__proto__" then Some (stored p)
          else match ownField p key with
               | Some m => Some m
               | None => ofObjectPrototype key
               end
      end
  end.

(** [!!value] of what was read. *)
Definition truthy (m : Member) : bool :=
  match m with
  | stored _ => true
  | text s => negb (String.eqb s "")
  | count n => negb (n =? 0)%nat
  | builtin _ => true
  end.

(** [`${value.symbol}`]: the symbol of a currency object, and
    ["undefined"] for a value with no such property. *)
Definition symbolText (m : Member) : string :=
  match m with
  | stored currency => symbol currency
  | _ => "undefined"
  end.

(** [value.minorUnit] as the argument of [toFixed], which takes
    [undefined] for 0. *)
Definition minorUnitDigits (m : Member) : nat :=
  match m with
  | stored currency => minorUnit currency
  | _ => 0%nat
  end.

(** [CURRENCIES.reduce((map, currency) => { map[currency.code] = currency;
    return map; }, {})]. *)
Definition CURRENCY_MAP : Dictionary :=
  fold_left (fun map currency => assign map (code currency) currency)
    CURRENCIES emptyObject.

Definition POPULAR_CURRENCIES : list CurrencyCode :=
  ["USD"; "EUR"; "GBP"; "JPY"; "CAD"; "AUD"].

Definition DEFAULT_BASE_CURRENCY : CurrencyCode := "USD".
Definition DEFAULT_TARGET_CURRENCY : CurrencyCode := "EUR".

(** ** lib/conversion/format.ts *)

Section Format.

(** [Number::toString] of the platform, which [toFixed] falls back to
    for a magnitude of 10^21 or more. *)
Variable Number_toString : number -> string.

Fixpoint zeros (n : nat) : string :=
  match n with
  | O => ""
  | S n' => String "0" (zeros n')
  end.

(** The decimal digits of a natural number, ["0"] for zero. *)
Definition decimalDigits (n : Z) : string :=
  NilZero.string_of_uint (N.to_uint (Z.to_N n)).

(** The integer [n] for which [n / 10^f] is closest to [m * 2^e], the
    larger one of two. *)
Definition scaledRound (m : positive) (e : Z) (f : nat) : Z :=
  let t := 10 ^ Z.of_nat f in
  if 0 <=? e then Z.pos m * 2 ^ e * t
  else (2 * Z.pos m * t + 2 ^ (- e)) `div` (2 * 2 ^ (- e)).

(** [m * 2^e >= 10^21]. *)
Definition atLeast1e21 (m : positive) (e : Z) : bool :=
  if 0 <=? e then 10 ^ 21 <=? Z.pos m * 2 ^ e
  else 10 ^ 21 * 2 ^ (- e) <=? Z.pos m.

(** The digits of [n] with a point before the last [f] of them,
    zero-padded to at least one digit before the point. *)
Definition fixedPoint (n : Z) (f : nat) : string :=
  let m := decimalDigits n in
  match f with
  | O => m
  | S _ =>
      let k := String.length m in
      let m := if (k <=? f)%nat then zeros (f + 1 - k) ++ m else m in
      let k := if (k <=? f)%nat then (f + 1)%nat else k in
      substring 0 (k - f) m ++ "." ++ substring (k - f) f m
  end.

(** [Number.prototype.toFixed] for a fraction digit count within range. *)
Definition toFixedDigits (x : number) (f : nat) : string :=
  match x with
  | S754_nan => "NaN"
  | S754_infinity s => if s then "-Infinity" else "Infinity"
  | S754_zero _ => fixedPoint 0 f
  | S754_finite s m e =>
      (if s then "-" else "")
      ++ (if atLeast1e21 m e then Number_toString (S754_finite false m e)
          else fixedPoint (scaledRound m e f) f)
  end.

Definition toFixed (x : number) (fractionDigits : nat) : JSResult string :=
  if (100 <? fractionDigits)%nat
  then Throw (RangeError "toFixed() digits argument must be between 0 and 100")
  else Return (toFixedDigits x fractionDigits).

Definition formatCurrency (amount : number) (currencyCode : CurrencyCode)
    (minorUnitOverride : option nat) : JSResult string :=
  let currency := read CURRENCY_MAP currencyCode in
  match currency with
  | None =>
      try! digits := toFixed amount 2 in
      Return digits
  | Some currency =>
      if negb (truthy currency)
      then
        try! digits := toFixed amount 2 in
        Return digits
      else
        try! digits := toFixed amount (minorUnitDigits currency) in
        Return (symbolText currency ++ digits)
  end.

Definition formatRate (rate : number) (decimals : nat) : JSResult string :=
  toFixed rate decimals.

End Format.

(** ** Regular expressions *)

(** The patterns of the sources, as syntax trees. *)
Inductive regex : Type :=
  | Void
  | Eps
  | Chr (c : ascii)
  | Class (p : ascii -> bool)
  | Alt (r1 r2 : regex)
  | Seq (r1 r2 : regex)
  | Star (r : regex).

(** [r?] and [r+]. *)
Definition Opt (r : regex) : regex := Alt r Eps.
Definition Plus (r : regex) : regex := Seq r (Star r).

Fixpoint nullable (r : regex) : bool :=
  match r with
  | Void => false
  | Eps => true
  | Chr _ => false
  | Class _ => false
  | Alt r1 r2 => nullable r1 || nullable r2
  | Seq r1 r2 => nullable r1 && nullable r2
  | Star _ => true
  end.

(** The pattern for what may follow the character [c]. *)
Fixpoint deriv (c : ascii) (r : regex) : regex :=
  match r with
  | Void => Void
  | Eps => Void
  | Chr c' => if Ascii.eqb c c' then Eps else Void
  | Class p => if p c then Eps else Void
  | Alt r1 r2 => Alt (deriv c r1) (deriv c r2)
  | Seq r1 r2 =>
      if nullable r1
      then Alt (Seq (deriv c r1) r2) (deriv c r2)
      else Seq (deriv c r1) r2
  | Star r' => Seq (deriv c r') (Star r')
  end.

(** [/^r$/.test(s)]: the whole of [s] is in the language of [r]. *)
Fixpoint test (r : regex) (s : string) : bool :=
  match s with
  | EmptyString => nullable r
  | String c rest => test (deriv c r) rest
  end.

(** The language of a pattern. *)
Inductive Matches : regex -> string -> Prop :=
  | MEps : Matches Eps ""
  | MChr (c : ascii) : Matches (Chr c) (String c "")
  | MClass (p : ascii -> bool) (c : ascii) :
      p c = true -> Matches (Class p) (String c "")
  | MAltL (r1 r2 : regex) (s : string) :
      Matches r1 s -> Matches (Alt r1 r2) s
  | MAltR (r1 r2 : regex) (s : string) :
      Matches r2 s -> Matches (Alt r1 r2) s
  | MSeq (r1 r2 : regex) (s1 s2 : string) :
      Matches r1 s1 -> Matches r2 s2 -> Matches (Seq r1 r2) (s1 ++ s2)
  | MStarNil (r : regex) : Matches (Star r) ""
  | MStarApp (r : regex) (s1 s2 : string) :
      Matches r s1 -> Matches (Star r) s2 -> Matches (Star r) (s1 ++ s2).

(** ** lib/conversion/validate.ts: the helpers

    Lengths count bytes, which for the ASCII text the helpers keep are
    the characters. *)

(** [\d] and the class [0-9.-]. *)
Definition isDigit (c : ascii) : bool :=
  let n := nat_of_ascii c in (48 <=? n)%nat && (n <=? 57)%nat.

Definition isNumericChar (c : ascii) : bool :=
  isDigit c || Ascii.eqb c "." || Ascii.eqb c "-".

(** [s.replace(/[^...]/g, "")] for a class of single characters: every
    character outside [keep] is dropped. *)
Fixpoint removeAllNot (keep : ascii -> bool) (s : string) : string :=
  match s with
  | EmptyString => EmptyString
  | String c rest =>
      if keep c then String c (removeAllNot keep rest)
      else removeAllNot keep rest
  end.

(** [input.replace(/[^0-9.-]/g, "")]. *)
Definition sanitizeInput (input : string) : string :=
  removeAllNot isNumericChar input.

(** [/^-?\d*\.?\d+$/]. *)
Definition numberPattern : regex :=
  Seq (Opt (Chr "-"))
    (Seq (Star (Class isDigit)) (Seq (Opt (Chr ".")) (Plus (Class isDigit)))).

Definition isValidNumberString (input : string) : bool :=
  test numberPattern input.

(** [s.replace(c, "")] for a one-character string [c]: the first
    occurrence is dropped. *)
Fixpoint removeFirst (c : ascii) (s : string) : string :=
  match s with
  | EmptyString => EmptyString
  | String c' rest =>
      if Ascii.eqb c' c then rest else String c' (removeFirst c rest)
  end.

(** [s.split(c)] for a one-character separator. *)
Fixpoint split (sep : ascii) (s : string) : list string :=
  match s with
  | EmptyString => [EmptyString]
  | String c rest =>
      if Ascii.eqb c sep then EmptyString :: split sep rest
      else match split sep rest with
           | part :: parts => String c part :: parts
           | [] => [String c EmptyString]
           end
  end.

(** Lengths count characters of ASCII text. *)
Definition countDigitsBeforeDecimal (input : string) : nat :=
  let cleaned := removeFirst "-" input in
  let parts := split "." cleaned in
  match parts with
  | part :: _ => String.length part
  | [] => 0%nat
  end.

Fixpoint allChars (p : ascii -> bool) (s : string) : bool :=
  match s with
  | EmptyString => true
  | String c rest => p c && allChars p rest
  end.

(** The run of digits a string starts with. *)
Fixpoint leadingDigits (s : string) : string :=
  match s with
  | String c rest => if isDigit c then String c (leadingDigits rest) else ""
  | EmptyString => ""
  end.

Definition dropMinus (s : string) : string :=
  match s with
  | String "-" rest => rest
  | _ => s
  end.

(** ** Reading a formatted amount

    What it means for a string to be a number written to a given count
    of decimal places; the properties of the formatters are stated with
    it. *)

(** A finite number below 10^21 in magnitude, which [toFixed] writes in
    fixed notation. *)
Definition below1e21 (x : number) : bool :=
  match x with
  | S754_zero _ => true
  | S754_finite _ m e =>
      if 0 <=? e then Z.pos m * 2 ^ e <? 10 ^ 21
      else Z.pos m <? 10 ^ 21 * 2 ^ (- e)
  | _ => false
  end.

(** The sign in front: a minus for a negative number other than -0. *)
Definition minusSign (x : number) : string :=
  match x with
  | S754_finite true _ _ => "-"
  | _ => ""
  end.

(** The natural number a string of decimal digits denotes. *)
Definition digitsValue (s : string) : option Z :=
  match NilEmpty.uint_of_string s with
  | Some d => Some (Z.of_N (N.of_uint d))
  | None => None
  end.

(** [n / 10^f] is as close to the magnitude of [x] as a multiple of
    [10^-f] can be, and the larger one of two that are equally close. *)
Definition closestScaled (x : number) (f : nat) (n : Z) : Prop :=
  match x with
  | S754_zero _ => n = 0
  | S754_finite _ m e =>
      if 0 <=? e then n = Z.pos m * 2 ^ e * 10 ^ Z.of_nat f
      else 2 ^ (- e) * (2 * n - 1) <= 2 * Z.pos m * 10 ^ Z.of_nat f
                                      < 2 ^ (- e) * (2 * n + 1)
  | _ => False
  end.

(** [s] is [x] written to exactly [f] decimal places: the sign, the
    integer digits without needless zeros, and for [f > 0] a point and
    [f] digits; together the digits are the closest multiple of
    [10^-f]. *)
Definition writtenTo (f : nat) (x : number) (s : string) : Prop :=
  exists (int frac : string) (n : Z),
    s = (minusSign x ++ int
         ++ match f with O => "" | S _ => "." ++ frac end)%string
    /\ allChars isDigit int = true
    /\ (int = "0" \/ exists c rest, int = String c rest /\ c <> "0"%char)
    /\ allChars isDigit frac = true
    /\ String.length frac = f
    /\ digitsValue (int ++ frac) = Some n
    /\ closestScaled x f n.

(** ** lib/utils/date.ts

    Times are integers of milliseconds, as [Date.now()] gives them, and
    their differences stay below 2^53 in magnitude, where the arithmetic
    of numbers is exact and an integer is printed in full. *)

(** The text of an integer in a template literal. *)
Definition integerToString (n : Z) : string :=
  if n <? 0 then "-" ++ decimalDigits (- n) else decimalDigits n.

Module DateUtils.

(** [getRelativeTime(timestamp)] when [Date.now()] reads [now]. *)
Definition getRelativeTime (now timestamp : Z) : string :=
  let seconds := (now - timestamp) `div` 1000 in
  if seconds <? 60 then "just now"
  else if seconds <? 3600
       then integerToString (seconds `div` 60) ++ " minutes ago"
  else if seconds <? 86400
       then integerToString (seconds `div` 3600) ++ " hours ago"
  else integerToString (seconds `div` 86400) ++ " days ago".

(** [isStale(timestamp, thresholdMs)] when [Date.now()] reads [now]. *)
Definition isStale (now timestamp thresholdMs : Z) : bool :=
  thresholdMs <? now - timestamp.

End DateUtils.

(** ** lib/types/index.ts: the conversion result

    The fields [amount], [rate] and [timestamp] carry the name of the
    record in front, as other records have fields of these names. *)

Record ConversionResult := {
  result_amount : number;
  result_rate : number;
  result_timestamp : Z;
  formatted : string
}.

(** ** lib/hooks/useConversion.ts

    The state of the hook and what one event does to it. The callbacks a
    render hands out close over the state of that render ([useCallback]
    with every value they read among its dependencies), and the setters
    they call take effect together at the next render; one event is
    handled per render. *)

Module useConversion.

Record State := {
  amount : string;
  fromCurrency : CurrencyCode;
  toCurrency : CurrencyCode;
  result : option ConversionResult;
  conversionError : option string
}.

(** The state of the first render. *)
Definition initial : State :=
  {| amount := ""; fromCurrency := DEFAULT_BASE_CURRENCY;
     toCurrency := DEFAULT_TARGET_CURRENCY;
     result := None; conversionError := None |}.

Definition setAmount (st : State) (value : string) : State :=
  {| amount := value; fromCurrency := fromCurrency st;
     toCurrency := toCurrency st; result := result st;
     conversionError := conversionError st |}.

(** [setFromCurrency(toCurrency); setToCurrency(fromCurrency)], both read
    from the render the callback was made in. *)
Definition swap (st : State) : State :=
  {| amount := amount st; fromCurrency := toCurrency st;
     toCurrency := fromCurrency st; result := result st;
     conversionError := conversionError st |}.

Definition handleFromCurrencyChange (st : State) (newCurrency : CurrencyCode)
    : State :=
  if String.eqb newCurrency (toCurrency st) then swap st
  else {| amount := amount st; fromCurrency := newCurrency;
          toCurrency := toCurrency st; result := result st;
          conversionError := conversionError st |}.

Definition handleToCurrencyChange (st : State) (newCurrency : CurrencyCode)
    : State :=
  if String.eqb newCurrency (fromCurrency st) then swap st
  else {| amount := amount st; fromCurrency := fromCurrency st;
          toCurrency := newCurrency; result := result st;
          conversionError := conversionError st |}.

(** The effect that computes the result, for the debounced amount and the
    rates the other hooks hold at that render: with no amount or no rates
    it clears the result and the error, and otherwise its [try] block is
    empty. *)
Definition conversionEffect (st : State) (debouncedAmount : string)
    (ratesData : option ExchangeRate) : State :=
  if String.eqb debouncedAmount ""
     || match ratesData with None => true | Some _ => false end
  then {| amount := amount st; fromCurrency := fromCurrency st;
          toCurrency := toCurrency st; result := None;
          conversionError := None |}
  else st.

(** What can happen between two renders. *)
Inductive Action :=
  | SetAmount (value : string)
  | SetFromCurrency (newCurrency : CurrencyCode)
  | SetToCurrency (newCurrency : CurrencyCode)
  | Swap
  | RunEffect (debouncedAmount : string) (ratesData : option ExchangeRate).

Definition step (st : State) (a : Action) : State :=
  match a with
  | SetAmount value => setAmount st value
  | SetFromCurrency c => handleFromCurrencyChange st c
  | SetToCurrency c => handleToCurrencyChange st c
  | Swap => swap st
  | RunEffect debouncedAmount ratesData =>
      conversionEffect st debouncedAmount ratesData
  end.

Definition run (st : State) (actions : list Action) : State :=
  fold_left step actions st.

End useConversion.

(** ** Classes of numbers

    Predicates the properties of the arithmetic are stated with. *)

(** The magnitude of a double is at most 2^53 - 1. *)
Definition withinSafeRange (x : number) : Prop :=
  match x with
  | S754_zero _ => True
  | S754_finite _ m e =>
      if 0 <=? e then Z.pos m * 2 ^ e <= 2 ^ 53 - 1
      else Z.pos m <= (2 ^ 53 - 1) * 2 ^ (- e)
  | _ => False
  end.

Definition isZero (x : number) : bool :=
  match x with S754_zero _ => true | _ => false end.

Definition isInfinite (x : number) : bool :=
  match x with S754_infinity _ => true | _ => false end.

Definition isPositiveFinite (x : number) : bool :=
  match x with S754_finite false _ _ => true | _ => false end.

(** ** The documented rounding

    The docstring of [roundToDecimals] and the design document describe
    banker's rounding: a tie goes to the even neighbour.  These two
    definitions follow those words, not the source, and serve only to
    compare the source with them. *)

(** Rounding to an integer, ties to even. *)
Definition documented_round (x : number) : number :=
  match x with
  | S754_finite s m e =>
      if 0 <=? e then x
      else
        let d := 2 ^ (- e) in
        let v := if s then Z.neg m else Z.pos m in
        let q := v `div` d in
        let r := v `mod` d in
        let n :=
          if 2 * r <? d then q
          else if d <? 2 * r then q + 1
          else if Z.even q then q else q + 1 in
        if n =? 0 then S754_zero s else ofZ n
  | _ => x
  end.

Definition documented_roundToDecimals (value : number) (decimals : nat)
    : number :=
  div (documented_round (mul value (Math_pow 10 decimals)))
    (Math_pow 10 decimals).

(** ** Scenarios

    Concrete inputs at which the properties below are evaluated. *)

Definition allAscii : list ascii := List.map ascii_of_nat (seq 0 256).

(** A snapshot as the provider returns it: base USD, one euro rate. *)
Definition sampleRates : ExchangeRate :=
  {| base := "USD"; timestamp := 1700000000000;
     rates := {[ "EUR" := decimal 93 2 ]} |}.

(** The entry [set] builds for [sampleRates] at clock reading [T]. *)
Definition entryAt (T : Z) : CachedRates :=
  {| data := sampleRates; cachedAt := T;
     expiresAt := T + RATE_CACHE_DURATION |}.

(** A world at clock reading [t] whose in-memory tier holds, under the key
    of USD, the entry cached at [T], and whose provider would answer the
    successive requests with [replies]. *)
Definition worldWithEntry (T t : Z) (replies : list NetReply) : World :=
  {| now := t;
     rateCache :=
       {| RateCache.memoryCache :=
            {[ RateCache.getCacheKey "USD" := entryAt T ]} |};
     provider := replies; fetcherCalls := 0; trace := [] |}.

(** A world at clock reading [t] in which [rateCache.set("USD", sampleRates)]
    was called at clock reading [T] on a new cache. *)
Definition worldAfterSet (T t : Z) (replies : list NetReply) : World :=
  {| now := t;
     rateCache := RateCache.set RateCache.new T "USD" sampleRates;
     provider := replies; fetcherCalls := 0; trace := [] |}.

Definition T0 : Z := 1700000000000.

(** A stand-in for [Number::toString], for amounts below 10^21 where
    [toFixed] does not call it. *)
Definition noToString (x : number) : string := "".

(** The record of a right shift stands for the exact significand [N / D]:
    its integer part, whether the rest reaches one half, and whether
    anything is left besides. *)
Definition represents (mrs : shr_record) (N D : Z) : Prop :=
  0 <= shr_m mrs /\ 0 < D
  /\ shr_m mrs * D <= N < (shr_m mrs + 1) * D
  /\ (shr_r mrs = true <-> (2 * shr_m mrs + 1) * D <= 2 * N)
  /\ (shr_s mrs = true <->
      N <> shr_m mrs * D /\ 2 * N <> (2 * shr_m mrs + 1) * D).

(** * Properties *)

(** ** The cache key *)

Import RateCache.

Lemma in_allAscii (c : ascii) : In c allAscii.
Proof.
  unfold allAscii. apply in_map_iff. exists (nat_of_ascii c). split.
  - apply ascii_nat_embedding.
  - apply in_seq. pose proof (nat_ascii_bounded c). lia.
Qed.

Lemma sameLetter_lowerAscii (c1 c2 : ascii) :
  sameLetter c1 c2 = Ascii.eqb (lowerAscii c1) (lowerAscii c2).
Proof.
  assert (H : forallb (fun a => forallb (fun b =>
                Bool.eqb (sameLetter a b)
                         (Ascii.eqb (lowerAscii a) (lowerAscii b)))
              allAscii) allAscii = true) by (vm_compute; reflexivity).
  rewrite forallb_forall in H. specialize (H c1 (in_allAscii c1)).
  rewrite forallb_forall in H. specialize (H c2 (in_allAscii c2)).
  now apply Bool.eqb_prop.
Qed.

Lemma equalsIgnoreCase_toLowerCase (a b : string) :
  equalsIgnoreCase a b = true <-> toLowerCase a = toLowerCase b.
Proof.
  revert b. induction a as [|c1 a IH]; intros [|c2 b]; simpl;
    try (split; [reflexivity || discriminate | reflexivity || discriminate]).
  rewrite andb_true_iff, sameLetter_lowerAscii, Ascii.eqb_eq, IH.
  split.
  - intros [-> ->]. reflexivity.
  - intros H. injection H as H1 H2. auto.
Qed.

Lemma append_inj_r (p a b : string) : (p ++ a = p ++ b)%string -> a = b.
Proof.
  induction p as [|c p IH]; simpl; intros H; [assumption|].
  injection H as H. auto.
Qed.

Lemma getCacheKey_inj_lower (a b : CurrencyCode) :
  getCacheKey a = getCacheKey b <-> toLowerCase a = toLowerCase b.
Proof.
  unfold getCacheKey. split.
  - intros H. apply append_inj_r in H. now apply (append_inj_r "_") in H.
  - intros ->. reflexivity.
Qed.

(** C9. The cache key of a base currency code is the namespace constant,
    an underscore and the lower-cased code; two codes have the same key
    exactly when they are equal up to the case of their letters, so
    ["USD"] and ["usd"] have one key and address one entry of the
    in-memory tier. *)
Theorem getCacheKey_case_insensitive :
  (forall baseCurrency : CurrencyCode,
      getCacheKey baseCurrency
      = (STORAGE_KEYS.RATE_CACHE ++ "_" ++ toLowerCase baseCurrency)%string)
  /\ getCacheKey "USD" = "currency_converter_rate_cache_usd"
  /\ getCacheKey "USD" = getCacheKey "usd"
  /\ (forall a b : CurrencyCode,
        equalsIgnoreCase a b = true <-> getCacheKey a = getCacheKey b)
  /\ (forall (this : RateCache.t) (a b : CurrencyCode),
        equalsIgnoreCase a b = true ->
        memoryCache this !! getCacheKey a = memoryCache this !! getCacheKey b).
Proof.
  split; [reflexivity|]. split; [reflexivity|]. split; [reflexivity|].
  split.
  - intros a b. rewrite getCacheKey_inj_lower.
    apply equalsIgnoreCase_toLowerCase.
  - intros this a b H. apply equalsIgnoreCase_toLowerCase in H.
    apply getCacheKey_inj_lower in H. now rewrite H.
Qed.


(** ** The rate cache *)

(** C4. The claim: an entry cached at [T] is valid while [now < expiresAt]
    and stale-usable from five minutes to twenty-four hours of age. The
    code: after [set] at [T], [isValid] is false at T+4:59 and [isStale] is
    false at T+5:01 and at T+23:59, where the claim has them true; only the
    last instant, T+24:01, is unusable as claimed. *)
Theorem freshness_windows_always_false
    (this : RateCache.t) (T : Z) (baseCurrency : CurrencyCode)
    (snapshot : ExchangeRate) :
  let cached := RateCache.set this T baseCurrency snapshot in
  RateCache.isValid cached (T + 299000) baseCurrency = false
  /\ RateCache.isStale cached (T + 301000) baseCurrency = false
  /\ RateCache.isStale cached (T + 86340000) baseCurrency = false
  /\ RateCache.isValid cached (T + 86460000) baseCurrency = false
  /\ RateCache.isStale cached (T + 86460000) baseCurrency = false.
Proof. repeat split. Qed.

Lemma isValid_false (this : RateCache.t) (t : Z) (baseCurrency : CurrencyCode) :
  RateCache.isValid this t baseCurrency = false.
Proof. unfold RateCache.isValid. now destruct (RateCache.get _ _). Qed.

Lemma isStale_false (this : RateCache.t) (t : Z) (baseCurrency : CurrencyCode) :
  RateCache.isStale this t baseCurrency = false.
Proof. unfold RateCache.isStale. now destruct (RateCache.get _ _). Qed.

Lemma set_stores_nothing (this : RateCache.t) (T : Z)
    (baseCurrency : CurrencyCode) (snapshot : ExchangeRate) :
  RateCache.set this T baseCurrency snapshot = this
  /\ RateCache.get (RateCache.set this T baseCurrency snapshot) baseCurrency
     = None.
Proof. split; reflexivity. Qed.

(** ** The rate fetcher *)

(** C7. The claim: up to two retries on transient failures, after 200 ms
    and 400 ms. The code: the retry constants are those of the claim, but
    [fetchExchangeRates] rejects with API_ERROR at once in every world: no
    request is made, no timer is awaited and the clock and the pending
    replies of the provider are as before. *)
Theorem fetchExchangeRates_never_retries
    (w : World) (baseCurrency : CurrencyCode) :
  RETRY_ATTEMPTS = 2%nat
  /\ RETRY_DELAYS = [200; 400]
  /\ fst (fetchExchangeRates baseCurrency w)
     = Rejected (RateFetchError "fetchExchangeRates not implemented"
                   API_ERROR (now w))
  /\ trace (snd (fetchExchangeRates baseCurrency w)) = trace w
  /\ provider (snd (fetchExchangeRates baseCurrency w)) = provider w
  /\ now (snd (fetchExchangeRates baseCurrency w)) = now w
  /\ fetcherCalls (snd (fetchExchangeRates baseCurrency w))
     = S (fetcherCalls w).
Proof. repeat split. Qed.

(** A transient failure followed by a good answer: the world of the retry
    scenarios. *)
Example fetchExchangeRates_transient_then_success :
  let w := worldAfterSet T0 (T0 + 1000)
             [NetFailure NETWORK_ERROR; NetBody sampleRates] in
  fetchExchangeRates "USD" w
  = (Rejected (RateFetchError "fetchExchangeRates not implemented"
                 API_ERROR (T0 + 1000)),
     {| now := T0 + 1000; rateCache := rateCache w;
        provider := [NetFailure NETWORK_ERROR; NetBody sampleRates];
        fetcherCalls := 1; trace := [] |}).
Proof. reflexivity. Qed.

(** ** The rate orchestrator *)

(** C1. The claim: with a fresh entry in the cache, [getRates] returns it
    with source ["cache"] and does not call the fetcher. The code: in every
    world, also one whose cache was just set or whose in-memory tier holds
    an entry younger than five minutes, [getRates] rejects with the
    RateFetchError "getRates not implemented"; the world is left as it was,
    so the fetcher is indeed not entered. *)
Theorem getRates_rejects_in_every_world
    (w : World) (baseCurrency : CurrencyCode) :
  getRates baseCurrency w
  = (Rejected (RateFetchError "getRates not implemented" API_ERROR (now w)),
     w).
Proof. reflexivity. Qed.

Example getRates_after_set_one_minute_ago :
  fst (getRates "USD" (worldAfterSet T0 (T0 + 60000) []))
  = Rejected (RateFetchError "getRates not implemented" API_ERROR
                (T0 + 60000)).
Proof. reflexivity. Qed.

Example getRates_with_fresh_entry_in_memory :
  let w := worldWithEntry T0 (T0 + 60000) [] in
  memoryCache (rateCache w) !! getCacheKey "USD" = Some (entryAt T0)
  /\ (now w <? expiresAt (entryAt T0)) = true
  /\ fst (getRates "USD" w)
     = Rejected (RateFetchError "getRates not implemented" API_ERROR
                   (T0 + 60000))
  /\ fetcherCalls (snd (getRates "USD" w)) = 0%nat.
Proof. repeat split; vm_compute; reflexivity. Qed.

(** C2. The claim: without a valid entry and with a failing fetch,
    [getRates] resolves with the stale snapshot and source ["stale"] when
    an entry between five minutes and twenty-four hours old exists, and
    rejects with a RateFetchError otherwise. The code: in every world
    [getRates] rejects with a RateFetchError and resolves with nothing, so
    the second half holds and a stale entry is never served. *)
Theorem getRates_never_serves_stale
    (w : World) (baseCurrency : CurrencyCode) :
  (forall response : ApiResponse ExchangeRate,
      fst (getRates baseCurrency w) <> Resolved response)
  /\ (exists e : JSError,
        fst (getRates baseCurrency w) = Rejected e
        /\ isRateFetchError e = true).
Proof.
  split.
  - intros response H. discriminate H.
  - eexists. split; reflexivity.
Qed.

Example getRates_with_ten_hour_old_entry :
  let w := worldWithEntry T0 (T0 + 10 * 60 * 60 * 1000)
             [NetFailure NETWORK_ERROR; NetFailure NETWORK_ERROR;
              NetFailure NETWORK_ERROR] in
  memoryCache (rateCache w) !! getCacheKey "USD" = Some (entryAt T0)
  /\ (RATE_CACHE_DURATION <=? now w - cachedAt (entryAt T0)) = true
  /\ (now w - cachedAt (entryAt T0) <? STALE_CACHE_THRESHOLD) = true
  /\ fst (getRates "USD" w)
     = Rejected (RateFetchError "getRates not implemented" API_ERROR
                   (T0 + 36000000)).
Proof. repeat split; vm_compute; reflexivity. Qed.

(** ** The cross-rate resolver *)

(** C5. The claim: [calculateCrossRate(X, X, rates, base)] is 1 for every
    currency, table and base. The code: the call throws the Error
    "calculateCrossRate not implemented" for all arguments, equal
    currencies included, and returns no rate. *)
Theorem calculateCrossRate_identity_throws
    (X baseCurrency : CurrencyCode) (table : gmap string number) :
  calculateCrossRate X X table baseCurrency
  = Throw (Error "calculateCrossRate not implemented")
  /\ calculateCrossRate X X table baseCurrency <> Return (ofZ 1).
Proof. split; [reflexivity | discriminate]. Qed.

Example calculateCrossRate_USD_USD :
  calculateCrossRate "USD" "USD" ∅ "USD"
  = Throw (Error "calculateCrossRate not implemented").
Proof. reflexivity. Qed.

(** ** The validator *)

(** C6. The claim: ["-50"] and a sixteen-digit amount are rejected and
    ["100.50"] is accepted with value 100.50. The code: every input is
    rejected with the error "validateAmount not implemented" and no value,
    so the two rejections hold and the well-formed amount is refused. *)
Theorem validateAmount_rejects_everything :
  valid (validateAmount "-50") = false
  /\ valid (validateAmount "1234567890123456") = false
  /\ validateAmount "100.50"
     = {| valid := false;
          error := Some "validateAmount not implemented";
          value := None |}
  /\ (forall input : string, valid (validateAmount input) = false).
Proof. repeat split. Qed.


(** ** Rounding to nearest in [SpecFloat]

    Binary digits. *)

Lemma digits2_pos_size (p : positive) : digits2_pos p = Pos.size p.
Proof. induction p; simpl; congruence. Qed.

Lemma Zdigits2_log2 (m : Z) : 0 < m -> Zdigits2 m = Z.log2 m + 1.
Proof.
  destruct m as [|p|p]; try lia. intros _. simpl.
  rewrite digits2_pos_size. destruct p; simpl; lia.
Qed.

Lemma Zdigits2_bounds (m : Z) :
  0 < m -> 2 ^ (Zdigits2 m - 1) <= m < 2 ^ Zdigits2 m.
Proof.
  intros H. rewrite Zdigits2_log2 by assumption.
  replace (Z.log2 m + 1 - 1) with (Z.log2 m) by lia.
  apply Z.log2_spec. assumption.
Qed.

Lemma Zdigits2_unique (m d : Z) :
  2 ^ (d - 1) <= m < 2 ^ d -> 0 < m -> Zdigits2 m = d.
Proof.
  intros H Hm. rewrite Zdigits2_log2 by assumption.
  assert (0 <= d - 1).
  { destruct (Z.le_gt_cases 0 (d - 1)) as [|Hneg]; [assumption|].
    assert (d <= 0) by lia.
    destruct (Z.eq_dec d 0) as [->|]; [simpl in H; lia|].
    rewrite (Z.pow_neg_r 2 d) in H by lia. lia. }
  rewrite (Z.log2_unique m (d - 1)); [lia | assumption |].
  replace (Z.succ (d - 1)) with d by lia. assumption.
Qed.

Lemma Zdigits2_pos (m : Z) : 0 < m -> 0 < Zdigits2 m.
Proof. destruct m; simpl; lia. Qed.

Lemma shr_1_fields (m : Z) (r s : bool) :
  0 <= m ->
  shr_1 {| shr_m := m; shr_r := r; shr_s := s |}
  = {| shr_m := Z.div2 m; shr_r := Z.odd m; shr_s := orb r s |}.
Proof. destruct m as [|[p|p|]|p]; intros H; try reflexivity; lia. Qed.

Lemma shr_1_represents (mrs : shr_record) (N D : Z) :
  represents mrs N D -> represents (shr_1 mrs) N (2 * D).
Proof.
  destruct mrs as [m r s]. intros H.
  rewrite shr_1_fields by apply H.
  unfold represents in *. cbn [shr_m shr_r shr_s] in *.
  destruct H as (Hm & HD & HN & Hr & Hs).
  assert (Hrs : orb r s = true <-> N <> m * D).
  { destruct r, s; simpl; split; intros H; try reflexivity; try discriminate.
    - lia.
    - lia.
    - intros E. assert (true = true) as T by reflexivity. apply Hs in T. lia.
    - exfalso. destruct (Z.eq_dec (2 * N) ((2 * m + 1) * D)).
      + assert ((2 * m + 1) * D <= 2 * N) as T by lia. apply Hr in T. discriminate.
      + assert (false = true) as T by (apply Hs; split; assumption). discriminate. }
  pose proof (Z.div2_odd m) as Hdiv. clear Hr Hs.
  revert Hdiv. generalize (Z.div2 m). intros h Hdiv.
  destruct (Z.odd m); simpl Z.b2z in Hdiv; subst m.
  - assert (E : (2 * h + 1) * D = 2 * (h * D) + D) by ring. rewrite E in *.
    assert (E2 : (2 * h + 1 + 1) * D = 2 * (h * D) + 2 * D) by ring. rewrite E2 in *.
    assert (E3 : h * (2 * D) = 2 * (h * D)) by ring. rewrite E3.
    assert (E4 : (h + 1) * (2 * D) = 2 * (h * D) + 2 * D) by ring. rewrite E4.
    assert (E5 : (2 * h + 1) * (2 * D) = 4 * (h * D) + 2 * D) by ring. rewrite E5.
    set (hD := h * D) in *.
    split; [lia|]. split; [lia|]. split; [lia|]. rewrite Hrs.
    split; split; intros; try reflexivity; lia.
  - assert (E : (2 * h + 0) * D = 2 * (h * D)) by ring. rewrite E in *.
    assert (E2 : (2 * h + 0 + 1) * D = 2 * (h * D) + D) by ring. rewrite E2 in *.
    assert (E3 : h * (2 * D) = 2 * (h * D)) by ring. rewrite E3.
    assert (E4 : (h + 1) * (2 * D) = 2 * (h * D) + 2 * D) by ring. rewrite E4.
    assert (E5 : (2 * h + 1) * (2 * D) = 4 * (h * D) + 2 * D) by ring. rewrite E5.
    set (hD := h * D) in *.
    split; [lia|]. split; [lia|]. split; [lia|]. rewrite Hrs.
    split; split; intros; try discriminate; lia.
Qed.

Lemma represents_ext (mrs : shr_record) (N D D' : Z) :
  D = D' -> represents mrs N D -> represents mrs N D'.
Proof. now intros ->. Qed.

Lemma pow2_xI (p : positive) :
  2 ^ Z.pos p~1 = 2 * 2 ^ Z.pos p * 2 ^ Z.pos p.
Proof.
  rewrite (Pos2Z.inj_xI p).
  replace (2 * Z.pos p + 1) with (Z.pos p + Z.pos p + 1) by lia.
  rewrite Z.pow_add_r by lia. rewrite Z.pow_add_r by lia.
  change (2 ^ 1) with 2. ring.
Qed.

Lemma pow2_xO (p : positive) : 2 ^ Z.pos p~0 = 2 ^ Z.pos p * 2 ^ Z.pos p.
Proof.
  rewrite (Pos2Z.inj_xO p).
  replace (2 * Z.pos p) with (Z.pos p + Z.pos p) by lia.
  rewrite Z.pow_add_r by lia. ring.
Qed.

Lemma iter_pos_represents (N : Z) (p : positive) :
  forall (mrs : shr_record) (D : Z),
    represents mrs N D ->
    represents (SpecFloat.iter_pos shr_1 p mrs) N (D * 2 ^ Z.pos p).
Proof.
  induction p as [p IH|p IH|]; intros mrs D H; simpl SpecFloat.iter_pos.
  - apply shr_1_represents, IH, IH in H.
    eapply represents_ext; [|exact H]. rewrite pow2_xI. ring.
  - apply IH, IH in H.
    eapply represents_ext; [|exact H]. rewrite pow2_xO. ring.
  - apply shr_1_represents in H.
    eapply represents_ext; [|exact H]. change (2 ^ 1) with 2. ring.
Qed.

Lemma shr_represents (mrs : shr_record) (e n N D : Z) :
  represents mrs N D -> 0 <= n ->
  represents (fst (shr mrs e n)) N (D * 2 ^ n) /\ snd (shr mrs e n) = e + n.
Proof.
  intros H Hn. destruct n as [|p|p]; try lia; simpl.
  - split; [|lia]. eapply represents_ext; [|exact H]. ring.
  - split; [|reflexivity]. now apply iter_pos_represents.
Qed.

Lemma round_nearest_even_represents (mrs : shr_record) (N D : Z) :
  represents mrs N D ->
  let m2 := round_nearest_even (shr_m mrs) (loc_of_shr_record mrs) in
  shr_m mrs <= m2 <= shr_m mrs + 1 /\ - D <= 2 * (m2 * D - N) <= D.
Proof.
  destruct mrs as [m r s]. unfold represents. cbn [shr_m shr_r shr_s].
  intros (Hm & HD & HN & Hr & Hs).
  destruct r, s; cbn [loc_of_shr_record round_nearest_even].
  - assert (T : true = true) by reflexivity.
    pose proof (proj1 Hr T). pose proof (proj1 Hs T). split; lia.
  - assert (T : true = true) by reflexivity. pose proof (proj1 Hr T).
    assert (2 * N = (2 * m + 1) * D).
    { destruct (Z.eq_dec (2 * N) ((2 * m + 1) * D)); [assumption|].
      assert (false = true) by (apply Hs; split; lia). discriminate. }
    destruct (Z.even m); split; lia.
  - assert (~ (2 * m + 1) * D <= 2 * N) by (intros C; apply Hr in C; discriminate).
    split; lia.
  - assert (N = m * D).
    { destruct (Z.eq_dec N (m * D)); [assumption|].
      destruct (Z.eq_dec (2 * N) ((2 * m + 1) * D)).
      - assert (false = true) by (apply Hr; lia). discriminate.
      - assert (false = true) by (apply Hs; split; lia). discriminate. }
    split; lia.
Qed.

Lemma shr_nonpos (mrs : shr_record) (e n : Z) : n <= 0 -> shr mrs e n = (mrs, e).
Proof. destruct n; [reflexivity | lia | reflexivity]. Qed.

Lemma fexp_unfold (e : Z) : fexp prec emax e = Z.max (e - 53) (-1074).
Proof. reflexivity. Qed.

Lemma pow2_pos (n : Z) : 0 <= n -> 0 < 2 ^ n.
Proof. intros. apply Z.pow_pos_nonneg; lia. Qed.

(** The shape and the accuracy of a rounded result whose mantissa has at
    least 53 digits before rounding.  [N / D] is the exact significand in
    units of [2^ex]. *)
Lemma binary_round_aux_spec (s : bool) (mx ex : Z) (lx : location) (N D : Z) :
  0 < mx -> 53 <= Zdigits2 mx ->
  represents (shr_record_of_loc mx lx) N D ->
  let e1 := fexp prec emax (Zdigits2 mx + ex) in
  exists m2 : Z,
    0 <= m2 <= 2 ^ 53
    /\ - (D * 2 ^ (e1 - ex)) <= 2 * (m2 * (D * 2 ^ (e1 - ex)) - N)
       <= D * 2 ^ (e1 - ex)
    /\ (e1 = Zdigits2 mx + ex - 53 -> 2 ^ 52 <= m2)
    /\ binary_round_aux prec emax s mx ex lx
       = if m2 =? 0 then S754_zero s
         else if m2 <? 2 ^ 53
              then (if e1 <=? 971 then S754_finite s (Z.to_pos m2) e1
                    else S754_infinity s)
              else (if e1 + 1 <=? 971
                    then S754_finite s (Z.to_pos (2 ^ 52)) (e1 + 1)
                    else S754_infinity s).
Proof.
  intros Hmx Hd Hrep e1.
  assert (Hsh : 0 <= e1 - ex) by (unfold e1; rewrite fexp_unfold; lia).
  assert (He1 : -1074 <= e1) by (unfold e1; rewrite fexp_unfold; lia).
  unfold binary_round_aux, shr_fexp. fold e1.
  destruct (shr_represents _ ex (e1 - ex) N D Hrep Hsh) as [Hrep' He'].
  destruct (shr (shr_record_of_loc mx lx) ex (e1 - ex)) as [mrs' e'].
  cbn [fst snd] in Hrep', He'.
  replace e' with e1 by lia. clear e' He'.
  pose proof (round_nearest_even_represents _ _ _ Hrep') as [Hm2 Herr].
  set (m2 := round_nearest_even (shr_m mrs') (loc_of_shr_record mrs')) in *.
  clearbody m2.
  set (P := 2 ^ (e1 - ex)) in *.
  assert (HP : 0 < P) by (apply pow2_pos; assumption).
  pose proof (Zdigits2_bounds mx Hmx) as Hb.
  set (d := Zdigits2 mx) in *.
  set (m1 := shr_m mrs') in *.
  destruct Hrep' as (Hm1 & HD' & HN' & _).
  assert (HD : 0 < D) by apply Hrep.
  assert (HN : mx * D <= N < (mx + 1) * D).
  { destruct Hrep as (_ & _ & HN & _). destruct lx as [|[]]; exact HN. }
  assert (Hlow : m1 * P <= mx).
  { assert (m1 * P < mx + 1); [|lia].
    apply (Z.mul_lt_mono_pos_r D); [assumption|].
    replace (m1 * P * D) with (m1 * (D * P)) by ring. lia. }
  assert (Hhigh : mx < (m1 + 1) * P).
  { apply (Z.mul_lt_mono_pos_r D); [assumption|].
    replace ((m1 + 1) * P * D) with ((m1 + 1) * (D * P)) by ring. lia. }
  assert (Hm1' : m1 < 2 ^ 53).
  { destruct (Z.lt_ge_cases m1 (2 ^ 53)) as [|Hge]; [assumption|exfalso].
    assert (2 ^ d <= 2 ^ 53 * P).
    { unfold P. rewrite <- Z.pow_add_r by lia.
      apply Z.pow_le_mono_r; [lia|]. unfold e1. rewrite fexp_unfold. lia. }
    assert (2 ^ 53 * P <= m1 * P) by (apply Z.mul_le_mono_nonneg_r; lia).
    lia. }
  exists m2. split; [lia|]. split; [exact Herr|]. split.
  { intros Hnormal.
    assert (m1 + 1 > 2 ^ 52); [|lia].
    assert (2 ^ 52 * P < (m1 + 1) * P).
    { assert (2 ^ 52 * P = 2 ^ (d - 1)); [|lia].
      unfold P. rewrite <- Z.pow_add_r by lia. f_equal. lia. }
    apply Z.mul_lt_mono_pos_r in H; lia. }
  destruct (Z.eqb_spec m2 0) as [Hz|Hnz].
  - rewrite Hz. rewrite shr_nonpos by (cbn [Zdigits2]; rewrite fexp_unfold; lia).
    reflexivity.
  - destruct (Z.ltb_spec m2 (2 ^ 53)) as [Hlt|Hge].
    + assert (Zdigits2 m2 <= 53).
      { pose proof (Zdigits2_bounds m2 ltac:(lia)) as Hb2.
        destruct (Z.le_gt_cases (Zdigits2 m2) 53); [assumption|exfalso].
        assert (2 ^ 53 <= 2 ^ (Zdigits2 m2 - 1))
          by (apply Z.pow_le_mono_r; lia).
        lia. }
      rewrite shr_nonpos by (rewrite fexp_unfold; lia).
      cbn [fst snd shr_m shr_record_of_loc].
      destruct m2 as [|p|p]; try lia. reflexivity.
    + assert (m2 = 2 ^ 53) by lia.
      subst m2.
      replace (Zdigits2 (2 ^ 53)) with 54 by reflexivity.
      replace (fexp prec emax (54 + e1) - e1) with 1
        by (rewrite fexp_unfold; lia).
      reflexivity.
Qed.

Lemma Zdigits2_ge (m n : Z) : 0 < m -> 2 ^ (n - 1) <= m -> n <= Zdigits2 m.
Proof.
  intros Hm H. pose proof (Zdigits2_bounds m Hm) as [_ Hb].
  destruct (Z.le_gt_cases n (Zdigits2 m)) as [|Hgt]; [assumption|exfalso].
  assert (0 < Zdigits2 m) by (apply Zdigits2_pos; assumption).
  assert (2 ^ Zdigits2 m <= 2 ^ (n - 1)) by (apply Z.pow_le_mono_r; lia).
  lia.
Qed.

Lemma represents_exact (m : Z) :
  0 <= m -> represents (shr_record_of_loc m loc_Exact) m 1.
Proof.
  intros H. unfold represents. cbn [shr_record_of_loc shr_m shr_r shr_s].
  repeat split; intros; try discriminate; lia.
Qed.

(** A canonical normal significand is left as it is. *)
Lemma binary_round_aux_canonical (s : bool) (m : positive) (e : Z) :
  2 ^ 52 <= Z.pos m < 2 ^ 53 -> -1074 <= e <= 971 ->
  binary_round_aux prec emax s (Z.pos m) e loc_Exact = S754_finite s m e.
Proof.
  intros Hm He.
  assert (Hd : Zdigits2 (Z.pos m) = 53) by (apply Zdigits2_unique; lia).
  destruct (binary_round_aux_spec s (Z.pos m) e loc_Exact (Z.pos m) 1)
    as (m2 & Hm2 & Herr & _ & ->);
    [lia | lia | apply represents_exact; lia |].
  rewrite Hd in *. rewrite fexp_unfold in *.
  replace (Z.max (53 + e - 53) (-1074)) with e in * by lia.
  replace (e - e) with 0 in * by lia. change (2 ^ 0) with 1 in *.
  assert (m2 = Z.pos m) by lia. subst m2.
  destruct (Z.eqb_spec (Z.pos m) 0); [lia|].
  destruct (Z.ltb_spec (Z.pos m) (2 ^ 53)); [|lia].
  destruct (Z.leb_spec e 971); [|lia]. reflexivity.
Qed.

Lemma Pos_iter_xO (m n : positive) :
  Z.pos (Pos.iter xO m n) = Z.pos m * 2 ^ Z.pos n.
Proof.
  induction n as [|n IH] using Pos.peano_ind.
  - simpl. lia.
  - rewrite Pos.iter_succ, Pos2Z.inj_xO, IH, Pos2Z.inj_succ, Z.pow_succ_r by lia.
    ring.
Qed.

(** The double of a non-zero integer below 2^53 in magnitude. *)
Lemma ofZ_canonical (k : Z) :
  k <> 0 -> Z.abs k < 2 ^ 53 ->
  let d := Zdigits2 k in
  ofZ k = S754_finite (k <? 0) (Z.to_pos (Z.abs k * 2 ^ (53 - d))) (d - 53)
  /\ 2 ^ 52 <= Z.abs k * 2 ^ (53 - d) < 2 ^ 53
  /\ 0 < d <= 53
  /\ 2 ^ (d - 1) <= Z.abs k < 2 ^ d.
Proof.
  intros Hk Hlt d.
  assert (Hd : d = Zdigits2 (Z.abs k)) by (unfold d; destruct k; reflexivity).
  clearbody d.
  pose proof (Zdigits2_bounds (Z.abs k) ltac:(lia)) as Hb. rewrite <- Hd in Hb.
  assert (Hdpos : 0 < d) by (rewrite Hd; apply Zdigits2_pos; lia).
  assert (Hd53 : d <= 53).
  { destruct (Z.le_gt_cases d 53); [assumption|exfalso].
    assert (2 ^ 53 <= 2 ^ (d - 1)) by (apply Z.pow_le_mono_r; lia). lia. }
  assert (Hrange : 2 ^ 52 <= Z.abs k * 2 ^ (53 - d) < 2 ^ 53).
  { replace (2 ^ 52) with (2 ^ (d - 1) * 2 ^ (53 - d))
      by (rewrite <- Z.pow_add_r by lia; f_equal; lia).
    replace (2 ^ 53) with (2 ^ d * 2 ^ (53 - d))
      by (rewrite <- Z.pow_add_r by lia; f_equal; lia).
    assert (0 < 2 ^ (53 - d)) by (apply pow2_pos; lia).
    split; [apply Z.mul_le_mono_nonneg_r | apply Z.mul_lt_mono_pos_r]; lia. }
  split; [|split; [assumption | split; [lia | assumption]]].
  assert (Hgen : forall (s : bool) (p : positive),
             Z.pos p = Z.abs k ->
             binary_round prec emax s p 0
             = S754_finite s (Z.to_pos (Z.abs k * 2 ^ (53 - d))) (d - 53)).
  { intros s p Hp. unfold binary_round, shl_align.
    replace (Z.pos (digits2_pos p)) with d
      by (rewrite Hd, <- Hp; reflexivity).
    rewrite fexp_unfold.
    replace (Z.max (d + 0 - 53) (-1074) - 0) with (d - 53) by lia.
    destruct (Z.eq_dec d 53) as [E|E].
    - subst d. rewrite E in *. change (53 - 53) with 0 in *.
      change (2 ^ 0) with 1 in *. cbv iota beta.
      rewrite Z.mul_1_r in *. rewrite <- Hp in *. rewrite Pos2Z.id.
      apply binary_round_aux_canonical; lia.
    - assert (Hq : exists q, d - 53 = Z.neg q).
      { destruct (d - 53) as [|q|q] eqn:Eq; try lia. now exists q. }
      destruct Hq as [q Eq]. rewrite Eq. cbv iota beta.
      replace (Z.max (d + 0 - 53) (-1074)) with (Z.neg q) by lia.
      assert (Hq : Z.pos q = 53 - d) by lia.
      rewrite <- Hq, <- Hp, <- Pos_iter_xO, Pos2Z.id.
      apply binary_round_aux_canonical.
      + rewrite Pos_iter_xO, Hp, Hq. assumption.
      + lia. }
  unfold ofZ, binary_normalize.
  destruct k as [|p|p]; [lia | |]; cbn [Z.ltb Z.compare]; apply Hgen; reflexivity.
Qed.

Lemma new_location_represents (q r D : Z) :
  0 <= q -> 0 <= r < D ->
  represents (shr_record_of_loc q (new_location D r)) (q * D + r) D.
Proof.
  intros Hq Hr. unfold new_location, new_location_even, new_location_odd.
  destruct (Z.even D) eqn:Heven.
  - destruct (Z.eqb_spec r 0) as [->|Hnz].
    + unfold represents; cbn [shr_record_of_loc shr_m shr_r shr_s].
      repeat split; intros; try discriminate; lia.
    + destruct (Z.compare_spec (2 * r) D);
        unfold represents; cbn [shr_record_of_loc shr_m shr_r shr_s];
        repeat split; intros; try discriminate; lia.
  - assert (Hodd : D = 2 * (D / 2) + 1).
    { rewrite <- Z.negb_odd in Heven. apply negb_false_iff in Heven.
      pose proof (Z.div2_odd D) as H. rewrite Heven, Z.div2_div in H.
      exact H. }
    destruct (Z.eqb_spec r 0) as [->|Hnz].
    + unfold represents; cbn [shr_record_of_loc shr_m shr_r shr_s].
      repeat split; intros; try discriminate; lia.
    + destruct (Z.compare_spec (2 * r + 1) D);
        unfold represents; cbn [shr_record_of_loc shr_m shr_r shr_s];
        repeat split; intros; try discriminate; lia.
Qed.

(** The quotient of two normal doubles with a normal result: the
    significand [my], the exponent and the rounding error, in units of the
    last place of the result. [Pa] is 1 when the dividend's significand is
    the smaller one, else 2. *)
Lemma div_normal (s : bool) (mk mp : positive) (ek ep : Z) :
  2 ^ 52 <= Z.pos mk < 2 ^ 53 -> 2 ^ 52 <= Z.pos mp < 2 ^ 53 ->
  -900 <= ek - ep <= 900 ->
  exists (m2 Pa c : Z) (my : positive),
    div (S754_finite s mk ek) (S754_finite false mp ep)
    = S754_finite s my (ek - ep - 54 + Pa + c)
    /\ (Pa = 1 /\ Z.pos mk < Z.pos mp \/ Pa = 2 /\ Z.pos mp <= Z.pos mk)
    /\ - (Z.pos mp * Pa) <= 2 * (m2 * (Z.pos mp * Pa) - Z.pos mk * 2 ^ 53)
       <= Z.pos mp * Pa
    /\ (c = 0 /\ Z.pos my = m2 /\ 2 ^ 52 <= m2 < 2 ^ 53
        \/ c = 1 /\ Z.pos my = 2 ^ 52 /\ m2 = 2 ^ 53).
Proof.
  intros Hmk Hmp He.
  unfold div, SFdiv, SFdiv_core_binary.
  replace (Zdigits2 (Z.pos mk)) with 53 by (symmetry; apply Zdigits2_unique; lia).
  replace (Zdigits2 (Z.pos mp)) with 53 by (symmetry; apply Zdigits2_unique; lia).
  rewrite fexp_unfold.
  replace (Z.min (Z.max (53 + ek - (53 + ep) - 53) (-1074)) (ek - ep))
    with (ek - ep - 53) by lia.
  replace (ek - ep - (ek - ep - 53)) with 53 by lia.
  cbv iota beta.
  rewrite Z.shiftl_mul_pow2 by lia.
  pose proof (Z_div_mod (Z.pos mk * 2 ^ 53) (Z.pos mp) ltac:(lia)) as Hdm.
  destruct (Z.div_eucl (Z.pos mk * 2 ^ 53) (Z.pos mp)) as [q r].
  destruct Hdm as [Hq Hr].
  assert (Hqlo : 2 ^ 52 <= q) by nia.
  assert (Hqhi : q < 2 ^ 54) by nia.
  assert (Hdq : Zdigits2 q = 53 /\ q < 2 ^ 53 \/ Zdigits2 q = 54 /\ 2 ^ 53 <= q).
  { destruct (Z.lt_ge_cases q (2 ^ 53)).
    - left. split; [apply Zdigits2_unique; lia | assumption].
    - right. split; [apply Zdigits2_unique; lia | assumption]. }
  destruct (binary_round_aux_spec (xorb s false) q (ek - ep - 53)
              (new_location (Z.pos mp) r) (q * Z.pos mp + r) (Z.pos mp))
    as (m2 & Hm2 & Herr & Hnorm & ->).
  { lia. }
  { destruct Hdq as [[-> _]|[-> _]]; lia. }
  { apply new_location_represents; lia. }
  rewrite fexp_unfold in *.
  replace (xorb s false) with s by (destruct s; reflexivity).
  replace (q * Z.pos mp + r) with (Z.pos mk * 2 ^ 53) in Herr by lia.
  destruct Hdq as [[Hd Hq53]|[Hd Hq53]]; rewrite Hd in *.
  - replace (Z.max (53 + (ek - ep - 53) - 53) (-1074)) with (ek - ep - 53) in * by lia.
    replace (ek - ep - 53 - (ek - ep - 53)) with 0 in * by lia.
    change (2 ^ 0) with 1 in *.
    specialize (Hnorm ltac:(lia)).
    destruct (Z.eqb_spec m2 0); [lia|].
    destruct (Z.ltb_spec m2 (2 ^ 53)).
    + destruct (Z.leb_spec (ek - ep - 53) 971); [|lia].
      exists m2, 1, 0, (Z.to_pos m2).
      split; [f_equal; lia|]. split; [left; split; [reflexivity | nia]|].
      split; [lia|]. left. rewrite Z2Pos.id by lia. lia.
    + destruct (Z.leb_spec (ek - ep - 53 + 1) 971); [|lia].
      exists m2, 1, 1, (Z.to_pos (2 ^ 52)).
      split; [f_equal; lia|]. split; [left; split; [reflexivity | nia]|].
      split; [lia|]. right. split; [reflexivity|]. split; [reflexivity|lia].
  - replace (Z.max (54 + (ek - ep - 53) - 53) (-1074)) with (ek - ep - 52) in * by lia.
    replace (ek - ep - 52 - (ek - ep - 53)) with 1 in * by lia.
    change (2 ^ 1) with 2 in *.
    specialize (Hnorm ltac:(lia)).
    destruct (Z.eqb_spec m2 0); [lia|].
    destruct (Z.ltb_spec m2 (2 ^ 53)).
    + destruct (Z.leb_spec (ek - ep - 52) 971); [|lia].
      exists m2, 2, 0, (Z.to_pos m2).
      split; [f_equal; lia|]. split; [right; split; [reflexivity | nia]|].
      split; [lia|]. left. rewrite Z2Pos.id by lia. lia.
    + destruct (Z.leb_spec (ek - ep - 52 + 1) 971); [|lia].
      exists m2, 2, 1, (Z.to_pos (2 ^ 52)).
      split; [f_equal; lia|]. split; [right; split; [reflexivity | nia]|].
      split; [lia|]. right. split; [reflexivity|]. split; [reflexivity|lia].
Qed.

(** The product of two normal doubles with a normal result. [Pb] is 1
    when the product of the significands is below 2^105, else 2. *)
Lemma mul_normal (s : bool) (my mp : positive) (ey ep : Z) :
  2 ^ 52 <= Z.pos my < 2 ^ 53 -> 2 ^ 52 <= Z.pos mp < 2 ^ 53 ->
  -900 <= ey + ep <= 800 ->
  exists (m2 Pb c : Z) (mz : positive),
    mul (S754_finite s my ey) (S754_finite false mp ep)
    = S754_finite s mz (ey + ep + 51 + Pb + c)
    /\ (Pb = 1 /\ Z.pos my * Z.pos mp < 2 ^ 105
        \/ Pb = 2 /\ 2 ^ 105 <= Z.pos my * Z.pos mp)
    /\ - (2 ^ 52 * Pb) <= 2 * (m2 * (2 ^ 52 * Pb) - Z.pos my * Z.pos mp)
       <= 2 ^ 52 * Pb
    /\ (c = 0 /\ Z.pos mz = m2 /\ 2 ^ 52 <= m2 < 2 ^ 53
        \/ c = 1 /\ Z.pos mz = 2 ^ 52 /\ m2 = 2 ^ 53).
Proof.
  intros Hmy Hmp He.
  unfold mul, SFmul. rewrite Pos2Z.inj_mul.
  set (M := Z.pos my * Z.pos mp) in *.
  assert (HMlo : 2 ^ 104 <= M) by (unfold M; nia).
  assert (HMhi : M < 2 ^ 106) by (unfold M; nia).
  assert (Hd : Zdigits2 M = 105 /\ M < 2 ^ 105
               \/ Zdigits2 M = 106 /\ 2 ^ 105 <= M).
  { destruct (Z.lt_ge_cases M (2 ^ 105)).
    - left. split; [apply Zdigits2_unique; lia | assumption].
    - right. split; [apply Zdigits2_unique; lia | assumption]. }
  destruct (binary_round_aux_spec (xorb s false) M (ey + ep) loc_Exact M 1)
    as (m2 & Hm2 & Herr & Hnorm & ->).
  { lia. }
  { destruct Hd as [[-> _]|[-> _]]; lia. }
  { apply represents_exact; lia. }
  rewrite fexp_unfold in *.
  replace (xorb s false) with s by (destruct s; reflexivity).
  destruct Hd as [[Hd HM]|[Hd HM]]; rewrite Hd in *.
  - replace (Z.max (105 + (ey + ep) - 53) (-1074)) with (ey + ep + 52) in * by lia.
    replace (ey + ep + 52 - (ey + ep)) with 52 in * by lia.
    specialize (Hnorm ltac:(lia)).
    destruct (Z.eqb_spec m2 0); [lia|].
    destruct (Z.ltb_spec m2 (2 ^ 53)).
    + destruct (Z.leb_spec (ey + ep + 52) 971); [|lia].
      exists m2, 1, 0, (Z.to_pos m2).
      split; [f_equal; lia|]. split; [left; split; [reflexivity | lia]|].
      split; [lia|]. left. rewrite Z2Pos.id by lia. lia.
    + destruct (Z.leb_spec (ey + ep + 52 + 1) 971); [|lia].
      exists m2, 1, 1, (Z.to_pos (2 ^ 52)).
      split; [f_equal; lia|]. split; [left; split; [reflexivity | lia]|].
      split; [lia|]. right. split; [reflexivity|]. split; [reflexivity|lia].
  - replace (Z.max (106 + (ey + ep) - 53) (-1074)) with (ey + ep + 53) in * by lia.
    replace (ey + ep + 53 - (ey + ep)) with 53 in * by lia.
    specialize (Hnorm ltac:(lia)).
    destruct (Z.eqb_spec m2 0); [lia|].
    destruct (Z.ltb_spec m2 (2 ^ 53)).
    + destruct (Z.leb_spec (ey + ep + 53) 971); [|lia].
      exists m2, 2, 0, (Z.to_pos m2).
      split; [f_equal; lia|]. split; [right; split; [reflexivity | lia]|].
      split; [lia|]. left. rewrite Z2Pos.id by lia. lia.
    + destruct (Z.leb_spec (ey + ep + 53 + 1) 971); [|lia].
      exists m2, 2, 1, (Z.to_pos (2 ^ 52)).
      split; [f_equal; lia|]. split; [right; split; [reflexivity | lia]|].
      split; [lia|]. right. split; [reflexivity|]. split; [reflexivity|lia].
Qed.

(** [Math.round] of a double within half a unit of the integer [k]. *)
Lemma Math_round_near (s : bool) (mz : positive) (ez k : Z) :
  ez < 0 -> k <> 0 ->
  0 <= 2 * (if s then Z.neg mz else Z.pos mz) + 2 ^ (- ez) - 2 * 2 ^ (- ez) * k
    < 2 * 2 ^ (- ez) ->
  Math_round (S754_finite s mz ez) = ofZ k.
Proof.
  intros Hez Hk H. unfold Math_round.
  destruct (Z.leb_spec 0 ez); [lia|].
  assert (Hd : 0 < 2 ^ (- ez)) by (apply pow2_pos; lia).
  set (dz := 2 ^ (- ez)) in *.
  set (v := if s then Z.neg mz else Z.pos mz) in *.
  replace ((2 * v + dz) `div` (2 * dz)) with k.
  - destruct (Z.eqb_spec k 0); [contradiction | reflexivity].
  - apply (Z.div_unique _ _ k (2 * v + dz - 2 * dz * k)); [left; lia | ring].
Qed.


Lemma Math_pow_10_cases (n : nat) :
  (n <= 3)%nat ->
  exists (mp : positive) (ep : Z),
    Math_pow 10 n = S754_finite false mp ep
    /\ (Z.pos mp = 2 ^ 52 /\ ep = -52
        \/ Z.pos mp = 5 * 2 ^ 50 /\ ep = -49
        \/ Z.pos mp = 25 * 2 ^ 48 /\ ep = -46
        \/ Z.pos mp = 125 * 2 ^ 46 /\ ep = -43).
Proof.
  intros Hn. destruct n as [|[|[|[|n]]]]; [| | | |lia].
  - exists 4503599627370496%positive, (-52). split; [reflexivity|]. left. split; reflexivity.
  - exists 5629499534213120%positive, (-49). split; [reflexivity|]. right. left. split; reflexivity.
  - exists 7036874417766400%positive, (-46). split; [reflexivity|]. right. right. left. split; reflexivity.
  - exists 8796093022208000%positive, (-43). split; [reflexivity|]. right. right. right. split; reflexivity.
Qed.

(** Dividing an integer below 2^51 in magnitude by a power of ten up to
    1000, multiplying back and rounding returns the integer. *)
Ltac replace_exp d j :=
  match goal with
  | |- context [2 ^ (- ?e)] => replace (- e) with (51 - d + j) by lia
  end.

Lemma round_trip_integer (n : nat) (k : Z) :
  (n <= 3)%nat -> k <> 0 -> Z.abs k < 2 ^ 51 ->
  Math_round (mul (div (ofZ k) (Math_pow 10 n)) (Math_pow 10 n)) = ofZ k.
Proof.
  intros Hn Hk Hlt.
  destruct (ofZ_canonical k Hk ltac:(lia)) as (HK & Hrange & Hd & Hb).
  set (d := Zdigits2 k) in *. clearbody d.
  assert (Hd51 : d <= 51).
  { destruct (Z.le_gt_cases d 51); [assumption|exfalso].
    assert (2 ^ 51 <= 2 ^ (d - 1)) by (apply Z.pow_le_mono_r; lia). lia. }
  assert (HG2 : 0 < 2 ^ (51 - d)) by (apply pow2_pos; lia).
  assert (Hpow : forall j, 0 <= j -> 2 ^ (51 - d + j) = 2 ^ (51 - d) * 2 ^ j)
    by (intros j Hj; apply Z.pow_add_r; lia).
  replace (53 - d) with (51 - d + 2) in * by lia.
  rewrite (Hpow 2) in * by lia. change (2 ^ 2) with 4 in *.
  set (G2 := 2 ^ (51 - d)) in *. clearbody G2.
  destruct (Math_pow_10_cases n Hn) as (mp & ep & -> & Hp).
  set (mk := Z.to_pos (Z.abs k * (G2 * 4))) in *.
  assert (Hmk : Z.pos mk = Z.abs k * (G2 * 4)) by (unfold mk; apply Z2Pos.id; lia).
  clearbody mk.
  pattern (ofZ k) at 1. rewrite HK. clear HK.
  assert (Hmp : 2 ^ 52 <= Z.pos mp < 2 ^ 53) by lia.
  destruct (div_normal (k <? 0) mk mp (d - 53) ep)
    as (m2 & Pa & c & my & -> & HPa & Herr & Hc); [lia | lia | lia |].
  destruct (mul_normal (k <? 0) my mp (d - 53 - ep - 54 + Pa + c) ep)
    as (m2' & Pb & c' & mz & -> & HPb & Herr' & Hc'); [lia | lia | lia |].
  clear Hn Hmp Hrange.
  destruct (Z.ltb_spec k 0) as [Hneg|Hpos];
    [rewrite Z.abs_neq in * by lia | rewrite Z.abs_eq in * by lia].
  all: destruct Hp as [[Hp ->]|[[Hp ->]|[[Hp ->]|[Hp ->]]]]; rewrite Hp in *; clear Hp.
  all: destruct HPa as [[-> HPa]|[-> HPa]].
  all: destruct HPb as [[-> HPb]|[-> HPb]].
  all: destruct Hc as [(-> & Hc1 & Hc2)|(-> & Hc1 & Hc2)]; rewrite Hc1 in *; clear Hc1.
  all: destruct Hc' as [(-> & Hc1' & Hc2')|(-> & Hc1' & Hc2')].
  all: try (exfalso; lia).
  all: apply Math_round_near; [lia | assumption |].
  all: rewrite <- ?Pos2Z.opp_pos.
  all: first
         [ replace_exp d 1 | replace_exp d 2 | replace_exp d 3 ].
  all: rewrite Hpow by lia.
  all: first [ change (2 ^ 1) with 2 | change (2 ^ 2) with 4
             | change (2 ^ 3) with 8 ].
  all: lia.
Qed.

Lemma SFeqb_refl (x : number) : isFinite x = true -> SFeqb x x = true.
Proof.
  destruct x as [s|s| |s m e]; intros H; try discriminate H.
  - reflexivity.
  - unfold SFeqb, SFcompare.
    rewrite Z.compare_refl, Pos.compare_cont_refl. now destruct s.
Qed.

(** The shape of a product with a normal double: a zero, an infinity or
    a finite double with a significand below 2^53. *)
Lemma mul_shape (x : number) (mp : positive) (ep : Z) :
  isFinite x = true -> 2 ^ 52 <= Z.pos mp < 2 ^ 53 ->
  (exists s, mul x (S754_finite false mp ep) = S754_zero s)
  \/ (exists s, mul x (S754_finite false mp ep) = S754_infinity s)
  \/ (exists s m e, mul x (S754_finite false mp ep) = S754_finite s m e
                    /\ Z.pos m < 2 ^ 53).
Proof.
  intros Hx Hmp. destruct x as [s|s| |s m e]; try discriminate Hx.
  - left. eexists. reflexivity.
  - unfold mul, SFmul. rewrite Pos2Z.inj_mul.
    destruct (binary_round_aux_spec (xorb s false) (Z.pos m * Z.pos mp)
                (e + ep) loc_Exact (Z.pos m * Z.pos mp) 1)
      as (m2 & Hm2 & _ & _ & ->).
    { lia. }
    { apply Zdigits2_ge; [lia|]. change (53 - 1) with 52. nia. }
    { apply represents_exact; lia. }
    destruct (Z.eqb_spec m2 0); [left; eexists; reflexivity|].
    right.
    destruct (Z.ltb_spec m2 (2 ^ 53)).
    + destruct (_ <=? 971); [right | left; eexists; reflexivity].
      do 3 eexists. split; [reflexivity|]. rewrite Z2Pos.id by lia. assumption.
    + destruct (_ <=? 971); [right | left; eexists; reflexivity].
      do 3 eexists. split; [reflexivity|]. reflexivity.
Qed.

(** What [Math.round] returns for a double with a significand below 2^53
    when the result is below 2^51 in magnitude: a zero, or the double of
    a non-zero integer below 2^51. *)
Lemma Math_round_small (x : number) :
  match x with S754_finite _ m _ => Z.pos m < 2 ^ 53 | _ => True end ->
  SFltb (Math_abs (Math_round x)) (ofZ (2 ^ 51)) = true ->
  (exists s, Math_round x = S754_zero s)
  \/ (exists k, Math_round x = ofZ k /\ k <> 0 /\ Z.abs k < 2 ^ 51).
Proof.
  change (ofZ (2 ^ 51)) with (S754_finite false 4503599627370496 (-1)).
  destruct x as [s|s| |s m e]; intros Hm H.
  - left. eexists. reflexivity.
  - discriminate H.
  - discriminate H.
  - unfold Math_round in *.
    destruct (Z.leb_spec 0 e) as [He|He].
    + exfalso. unfold SFltb, Math_abs, SFabs, SFcompare in H.
      destruct (Z.compare_spec e (-1)); try lia; discriminate H.
    + set (dd := 2 ^ (- e)) in *.
      set (v := if s then Z.neg m else Z.pos m) in *.
      set (k := (2 * v + dd) `div` (2 * dd)) in *.
      destruct (Z.eqb_spec k 0) as [Hk0|Hk0]; [left; eexists; reflexivity|].
      right. exists k. split; [reflexivity|]. split; [assumption|].
      assert (Hdd : 2 <= dd).
      { unfold dd. change 2 with (2 ^ 1) at 1.
        apply Z.pow_le_mono_r; lia. }
      assert (Hv : - 2 ^ 53 < v < 2 ^ 53) by (unfold v; destruct s; lia).
      assert (Hk : 2 * dd * k <= 2 * v + dd < 2 * dd * (k + 1)).
      { unfold k. split.
        - apply Z.mul_div_le. lia.
        - rewrite Z.mul_add_distr_l, Z.mul_1_r.
          pose proof (Z.mod_pos_bound (2 * v + dd) (2 * dd) ltac:(lia)).
          pose proof (Z.div_mod (2 * v + dd) (2 * dd) ltac:(lia)). lia. }
      assert (Hk53 : Z.abs k < 2 ^ 53) by nia.
      destruct (ofZ_canonical k Hk0 Hk53) as (HK & Hrange & Hd & Hb).
      rewrite HK in H.
      unfold SFltb, Math_abs, SFabs, SFcompare in H.
      destruct (Z.compare_spec (Zdigits2 k - 53) (-1)) as [E|E|E];
        try discriminate H.
      * exfalso. rewrite Pos.compare_cont_spec in H. simpl in H.
        destruct (Pos.compare_spec
                    (Z.to_pos (Z.abs k * 2 ^ (53 - Zdigits2 k)))
                    4503599627370496) as [E'|E'|E']; try discriminate H.
        apply Pos2Z.pos_lt_pos in E'. rewrite Z2Pos.id in E' by lia. lia.
      * assert (2 ^ Zdigits2 k <= 2 ^ 51) by (apply Z.pow_le_mono_r; lia).
        lia.
Qed.

Lemma round_trip_rounded (n : nat) (r : number) :
  (n <= 3)%nat ->
  (exists s, r = S754_zero s)
  \/ (exists k, r = ofZ k /\ k <> 0 /\ Z.abs k < 2 ^ 51) ->
  Math_round (mul (div r (Math_pow 10 n)) (Math_pow 10 n)) = r
  /\ isFinite (div r (Math_pow 10 n)) = true.
Proof.
  intros Hn [[s ->]|(k & -> & Hk & Hlt)].
  - destruct (Math_pow_10_cases n Hn) as (mp & ep & -> & _).
    destruct s; split; reflexivity.
  - split; [apply round_trip_integer; assumption|].
    destruct (ofZ_canonical k Hk ltac:(lia)) as (-> & Hrange & Hd & _).
    destruct (Math_pow_10_cases n Hn) as (mp & ep & -> & Hp).
    destruct (div_normal (k <? 0)
                (Z.to_pos (Z.abs k * 2 ^ (53 - Zdigits2 k))) mp
                (Zdigits2 k - 53) ep) as (m2 & Pa & c & my & -> & _).
    + rewrite Z2Pos.id by lia. assumption.
    + lia.
    + lia.
    + reflexivity.
Qed.

(** X14. For every finite [x] and every [minorUnit] from 0 to 3 such
    that the amount in minor units, [Math.round(x * 10^minorUnit)], is
    below 2^51 in magnitude, rounding to the minor unit twice gives the
    double that rounding once gives (the same value, hence [==]). *)
Theorem roundToMinorUnit_idempotent_below_2p51 (x : number) (n : nat) :
  isFinite x = true -> (n <= 3)%nat ->
  ltb (Math_abs (Math_round (mul x (Math_pow 10 n)))) (ofZ (2 ^ 51)) = true ->
  roundToMinorUnit (roundToMinorUnit x n) n = roundToMinorUnit x n
  /\ eqb (roundToMinorUnit (roundToMinorUnit x n) n) (roundToMinorUnit x n)
     = true.
Proof.
  intros Hx Hn Hlt. unfold roundToMinorUnit, roundToDecimals.
  set (r := Math_round (mul x (Math_pow 10 n))) in *.
  assert (Hr : (exists s, r = S754_zero s)
               \/ (exists k, r = ofZ k /\ k <> 0 /\ Z.abs k < 2 ^ 51)).
  { unfold r in *.
    destruct (Math_pow_10_cases n Hn) as (mp & ep & HP & Hp).
    rewrite HP in *.
    apply Math_round_small; [|assumption].
    destruct (mul_shape x mp ep Hx ltac:(lia))
      as [[s ->]|[[s ->]|(s & m & e & -> & Hm)]]; [exact I | exact I | exact Hm]. }
  destruct (round_trip_rounded n r Hn Hr) as [-> Hfin].
  split; [reflexivity|]. apply SFeqb_refl. assumption.
Qed.

(** ** Rounding *)

(** C3. The claim: ties round to the even neighbour, so
    [roundToDecimals(2.5, 0)] is 2 and [roundToDecimals(3.5, 0)] is 4. The
    code rounds with [Math.round], which takes a tie towards +infinity:
    2.5 goes to 3, 3.5 to 4, 0.5 to 1 and -2.5 to -2. *)
Theorem roundToDecimals_ties_go_up :
  roundToDecimals (decimal 25 1) 0 = ofZ 3
  /\ eqb (roundToDecimals (decimal 25 1) 0) (ofZ 2) = false
  /\ roundToDecimals (decimal 35 1) 0 = ofZ 4
  /\ roundToDecimals (decimal 5 1) 0 = ofZ 1
  /\ roundToDecimals (decimal (-25) 1) 0 = ofZ (-2)
  /\ roundToDecimals (decimal 125 3) 2 = decimal 13 2.
Proof. repeat split; vm_compute; reflexivity. Qed.

(** C8. The claim: rounding to the minor unit twice gives what rounding
    once gives, for every finite amount.  The code rounds with
    [Math.round]: at x = 35184659684626.375 and two decimals the first
    call gives the double next to 35184659684626.38, whose product with
    100 is the tie 3518465968462638.5; [Math.round] takes it up, and the
    second call gives the double next to 35184659684626.39. *)
Theorem roundToMinorUnit_twice_differs :
  let x := dyadic 281477277477011 (-3) in
  isFinite x = true
  /\ wf x = true
  /\ isSafeNumber x = true
  /\ roundToMinorUnit x 2 = dyadic 4503636439632177 (-7)
  /\ mul (roundToMinorUnit x 2) (Math_pow 10 2)
     = dyadic (2 * 3518465968462638 + 1) (-1)
  /\ Math_round (dyadic (2 * 3518465968462638 + 1) (-1))
     = ofZ 3518465968462639
  /\ roundToMinorUnit (roundToMinorUnit x 2) 2 = dyadic 4503636439632178 (-7)
  /\ eqb (roundToMinorUnit (roundToMinorUnit x 2) 2) (roundToMinorUnit x 2)
     = false.
Proof. repeat split; vm_compute; reflexivity. Qed.

(** With the tie rule of the docstring the same amount is kept: the tie
    3518465968462638.5 goes to the even 3518465968462638. *)
Example documented_rounding_keeps_the_amount :
  let x := dyadic 281477277477011 (-3) in
  documented_roundToDecimals x 2 = roundToMinorUnit x 2
  /\ documented_round (dyadic (2 * 3518465968462638 + 1) (-1))
     = ofZ 3518465968462638
  /\ documented_roundToDecimals (documented_roundToDecimals x 2) 2
     = documented_roundToDecimals x 2
  /\ documented_roundToDecimals (decimal 25 1) 0 = ofZ 2
  /\ documented_roundToDecimals (decimal 35 1) 0 = ofZ 4.
Proof. repeat split; vm_compute; reflexivity. Qed.

(** Beyond 2^51 minor units a two-decimal amount need not be kept, under
    either tie rule: 36194427480999.27 goes to the double next to
    36194427480999.28.  Rounding that again changes nothing, so this
    amount is no exception to idempotence. *)
Example two_decimal_amount_moved_once :
  let r := decimal 3619442748099927 2 in
  roundToMinorUnit r 2 = decimal 3619442748099928 2
  /\ eqb (roundToMinorUnit r 2) r = false
  /\ documented_roundToDecimals r 2 = decimal 3619442748099928 2
  /\ roundToMinorUnit (roundToMinorUnit r 2) 2 = roundToMinorUnit r 2.
Proof. repeat split; vm_compute; reflexivity. Qed.

Lemma roundToMinorUnit_idempotent_witness :
  let x := decimal 93456 3 in
  isFinite x = true
  /\ (2 <= 3)%nat
  /\ ltb (Math_abs (Math_round (mul x (Math_pow 10 2)))) (ofZ (2 ^ 51)) = true
  /\ roundToMinorUnit x 2 = decimal 9346 2
  /\ eqb (roundToMinorUnit (roundToMinorUnit x 2) 2) (roundToMinorUnit x 2)
     = true.
Proof.
  split; [reflexivity|]. split; [lia|]. split; [vm_compute; reflexivity|].
  split; [vm_compute; reflexivity|].
  apply (roundToMinorUnit_idempotent_below_2p51 (decimal 93456 3) 2);
    [reflexivity | lia | vm_compute; reflexivity].
Defined.

(** ** Formatting *)

(** *** Strings *)

Lemma append_String (c : ascii) (s t : string) :
  (String c s ++ t)%string = String c (s ++ t).
Proof. reflexivity. Qed.

Lemma append_empty_l (t : string) : ("" ++ t)%string = t.
Proof. reflexivity. Qed.

Lemma append_nil_r (s : string) : (s ++ "")%string = s.
Proof.
  induction s as [|c s IH]; [reflexivity|].
  rewrite append_String. now rewrite IH.
Qed.

Lemma allChars_app (p : ascii -> bool) (a b : string) :
  allChars p (a ++ b) = allChars p a && allChars p b.
Proof.
  induction a as [|c a IH]; [reflexivity|].
  rewrite append_String. simpl. rewrite IH. now rewrite andb_assoc.
Qed.

Lemma length_append (a b : string) :
  String.length (a ++ b) = (String.length a + String.length b)%nat.
Proof.
  induction a as [|c a IH]; [reflexivity|].
  rewrite append_String. simpl. now rewrite IH.
Qed.

Lemma zeros_length (n : nat) : String.length (zeros n) = n.
Proof. induction n; simpl; congruence. Qed.

Lemma zeros_digits (n : nat) : allChars isDigit (zeros n) = true.
Proof. induction n; simpl; auto. Qed.

Lemma substring_length (s : string) :
  forall n m : nat,
    (n + m <= String.length s)%nat -> String.length (substring n m s) = m.
Proof.
  induction s as [|c s IH]; intros n m H; simpl in H.
  - assert (n = 0%nat /\ m = 0%nat) as [-> ->] by lia. reflexivity.
  - destruct n as [|n]; simpl.
    + destruct m as [|m]; [reflexivity|]. simpl. rewrite IH; lia.
    + apply IH. lia.
Qed.

Lemma substring_allChars (p : ascii -> bool) (s : string) :
  forall n m : nat,
    allChars p s = true -> allChars p (substring n m s) = true.
Proof.
  induction s as [|c s IH]; intros n m H.
  - destruct n, m; reflexivity.
  - simpl in H. apply andb_true_iff in H as [Hc Hs].
    destruct n as [|n]; simpl.
    + destruct m as [|m]; [reflexivity|]. simpl. rewrite Hc. now apply IH.
    + now apply IH.
Qed.

(** A string is its first [a] characters followed by the rest. *)
Lemma substring_split (s : string) :
  forall a b : nat,
    (a + b = String.length s)%nat ->
    (substring 0 a s ++ substring a b s)%string = s.
Proof.
  induction s as [|c s IH]; intros a b H; simpl in H.
  - assert (a = 0%nat /\ b = 0%nat) as [-> ->] by lia. reflexivity.
  - destruct a as [|a].
    + simpl in H. subst b. change (substring 0 0 (String c s)) with "".
      rewrite append_empty_l. simpl. f_equal.
      specialize (IH 0%nat (String.length s) eq_refl).
      destruct s; [reflexivity|]. exact IH.
    + simpl. rewrite append_String. f_equal. apply IH. lia.
Qed.

(** *** Decimal digits *)

Lemma string_of_uint_digits (d : Decimal.uint) :
  allChars isDigit (NilEmpty.string_of_uint d) = true.
Proof. induction d; simpl; auto. Qed.

Lemma to_uint_not_Nil (k : N) : N.to_uint k <> Decimal.Nil.
Proof.
  destruct k as [|p]; [discriminate|]. simpl.
  apply DecimalPos.Unsigned.to_uint_nonnil.
Qed.

Lemma decimalDigits_NilEmpty (n : Z) :
  decimalDigits n = NilEmpty.string_of_uint (N.to_uint (Z.to_N n)).
Proof.
  unfold decimalDigits, NilZero.string_of_uint.
  pose proof (to_uint_not_Nil (Z.to_N n)) as H.
  destruct (N.to_uint (Z.to_N n)); [contradiction | reflexivity ..].
Qed.

Lemma decimalDigits_digits (n : Z) :
  allChars isDigit (decimalDigits n) = true /\ decimalDigits n <> "".
Proof.
  rewrite decimalDigits_NilEmpty. split; [apply string_of_uint_digits|].
  pose proof (to_uint_not_Nil (Z.to_N n)) as H.
  destruct (N.to_uint (Z.to_N n)); [contradiction | discriminate ..].
Qed.

Lemma decimalDigits_value (n : Z) :
  0 <= n -> digitsValue (decimalDigits n) = Some n.
Proof.
  intros Hn. unfold digitsValue.
  rewrite decimalDigits_NilEmpty, NilEmpty.usu, DecimalN.Unsigned.of_to.
  now rewrite Z2N.id.
Qed.

(** No needless zero in front. *)
Lemma decimalDigits_canonical (n : Z) :
  decimalDigits n = "0"
  \/ exists c rest, decimalDigits n = String c rest /\ c <> "0"%char.
Proof.
  rewrite decimalDigits_NilEmpty.
  assert (E : N.to_uint (Z.to_N n) = Decimal.unorm (N.to_uint (Z.to_N n))).
  { rewrite <- DecimalN.Unsigned.to_of. now rewrite DecimalN.Unsigned.of_to. }
  rewrite E. set (d := N.to_uint (Z.to_N n)). clearbody d. clear E.
  unfold Decimal.unorm.
  pose proof (nzhead_nonzero d) as Hnz.
  destruct (Decimal.nzhead d) as [|u|u|u|u|u|u|u|u|u|u];
    [left; reflexivity | exfalso; eapply Hnz; reflexivity | ..];
    right; simpl; eexists _, _; (split; [reflexivity | discriminate]).
Qed.

Lemma digitsValue_zeros (j : nat) (s : string) :
  digitsValue (zeros j ++ s) = digitsValue s.
Proof.
  induction j as [|j IH]; [reflexivity|].
  change (zeros (S j)) with (String "0" (zeros j)).
  rewrite append_String. unfold digitsValue in *. simpl.
  destruct (NilEmpty.uint_of_string (zeros j ++ s)) as [d|],
           (NilEmpty.uint_of_string s) as [d'|];
    simpl in *; congruence.
Qed.

(** *** [toFixed] *)

Lemma fixedPoint_written (n : Z) (f : nat) :
  0 <= n ->
  exists int frac : string,
    fixedPoint n f
    = (int ++ match f with O => "" | S _ => "." ++ frac end)%string
    /\ allChars isDigit int = true
    /\ (int = "0" \/ exists c rest, int = String c rest /\ c <> "0"%char)
    /\ allChars isDigit frac = true
    /\ String.length frac = f
    /\ digitsValue (int ++ frac) = Some n.
Proof.
  intros Hn.
  destruct (decimalDigits_digits n) as [Hdig Hne].
  pose proof (decimalDigits_canonical n) as Hcan.
  pose proof (decimalDigits_value n Hn) as Hval.
  unfold fixedPoint. destruct f as [|f'].
  - exists (decimalDigits n), "". rewrite !append_nil_r. auto 10.
  - set (f := S f'). set (m0 := decimalDigits n) in *.
    set (k0 := String.length m0).
    set (m := if (k0 <=? f)%nat then (zeros (f + 1 - k0) ++ m0)%string else m0).
    set (k := if (k0 <=? f)%nat then (f + 1)%nat else k0).
    assert (Hm : String.length m = k /\ (f + 1 <= k)%nat
                 /\ allChars isDigit m = true
                 /\ digitsValue m = Some n
                 /\ (substring 0 (k - f) m = "0"
                     \/ exists c rest,
                          substring 0 (k - f) m = String c rest
                          /\ c <> "0"%char)).
    { unfold m, k. destruct (Nat.leb_spec k0 f) as [Hle|Hgt].
      - rewrite length_append, zeros_length, allChars_app, zeros_digits,
          digitsValue_zeros.
        fold k0. repeat split; [lia | lia | exact Hdig | exact Hval |].
        left. replace (f + 1 - k0)%nat with (S (f - k0)) by lia.
        replace (f + 1 - f)%nat with 1%nat by lia.
        change (zeros (S (f - k0))) with (String "0" (zeros (f - k0))).
        rewrite append_String. simpl.
        destruct (zeros (f - k0) ++ m0)%string; reflexivity.
      - repeat split; [lia | exact Hdig | exact Hval |].
        right. destruct Hcan as [E | (c & rest & E & Hc)].
        + exfalso. unfold k0 in Hgt. rewrite E in Hgt. simpl in Hgt.
          unfold f in Hgt. lia.
        + rewrite E. replace (k0 - f)%nat with (S (k0 - f - 1)) by lia.
          simpl. eauto. }
    destruct Hm as (Hlen & Hk & Hdm & Hvm & Hcm).
    exists (substring 0 (k - f) m), (substring (k - f) f m).
    split; [reflexivity|]. split; [now apply substring_allChars|].
    split; [exact Hcm|]. split; [now apply substring_allChars|].
    split; [apply substring_length; lia|].
    rewrite substring_split by lia. exact Hvm.
Qed.

Lemma scaledRound_closest (s : bool) (m : positive) (e : Z) (f : nat) :
  0 <= scaledRound m e f
  /\ closestScaled (S754_finite s m e) f (scaledRound m e f).
Proof.
  unfold closestScaled, scaledRound.
  assert (Ht : 0 < 10 ^ Z.of_nat f) by (apply Z.pow_pos_nonneg; lia).
  set (t := 10 ^ Z.of_nat f) in *. clearbody t.
  destruct (Z.leb_spec 0 e) as [He|He].
  - assert (0 < 2 ^ e) by (apply pow2_pos; lia).
    split; [nia | reflexivity].
  - assert (HD : 0 < 2 ^ (- e)) by (apply pow2_pos; lia).
    set (D := 2 ^ (- e)) in *. clearbody D.
    assert (Hmt : 0 < Z.pos m * t) by nia.
    set (mt := Z.pos m * t) in *.
    replace (2 * Z.pos m * t) with (2 * mt) by (unfold mt; ring).
    clearbody mt.
    pose proof (Z.div_mod (2 * mt + D) (2 * D) ltac:(lia)) as Hdm.
    pose proof (Z.mod_pos_bound (2 * mt + D) (2 * D) ltac:(lia)) as Hb.
    set (q := (2 * mt + D) `div` (2 * D)) in *. clearbody q.
    set (r := (2 * mt + D) `mod` (2 * D)) in *. clearbody r.
    split; [nia|]. split; nia.
Qed.

Lemma toFixedDigits_written (toStr : number -> string) (x : number)
    (f : nat) :
  below1e21 x = true -> writtenTo f x (toFixedDigits toStr x f).
Proof.
  destruct x as [s|s| |s m e]; try discriminate; intros H; unfold writtenTo.
  - destruct (fixedPoint_written 0 f ltac:(lia))
      as (int & frac & E & H1 & H2 & H3 & H4 & H5).
    exists int, frac, 0. cbn [toFixedDigits minusSign]. rewrite E.
    rewrite append_empty_l. repeat split; assumption.
  - destruct (scaledRound_closest s m e f) as [Hpos Hclose].
    destruct (fixedPoint_written (scaledRound m e f) f Hpos)
      as (int & frac & E & H1 & H2 & H3 & H4 & H5).
    exists int, frac, (scaledRound m e f).
    assert (Hlt : atLeast1e21 m e = false).
    { cbn [below1e21] in H. unfold atLeast1e21.
      destruct (0 <=? e); apply Z.ltb_lt in H; apply Z.leb_gt; exact H. }
    cbn [toFixedDigits]. rewrite Hlt, E.
    split; [destruct s; reflexivity|]. repeat split; assumption.
Qed.

(** *** The currency table *)

Lemma CURRENCIES_codes_NoDup : NoDup (List.map code CURRENCIES).
Proof. apply (bool_decide_unpack _). vm_compute. reflexivity. Qed.

Lemma CURRENCIES_minorUnit_le_3 :
  Forall (fun currency => (minorUnit currency <= 3)%nat) CURRENCIES.
Proof. apply (bool_decide_unpack _). vm_compute. reflexivity. Qed.

(** No code of the table is a name that [Object.prototype] has, so no
    assignment of the fold touches the prototype and no entry hides an
    inherited member. *)
Lemma CURRENCIES_codes_plain :
  Forall (fun currency =>
            existsb (String.eqb (code currency)) Object_prototype_keys = false)
    CURRENCIES.
Proof. apply (bool_decide_unpack _). vm_compute. reflexivity. Qed.

(** Folding [map[currency.code] = currency] over a table with no code
    ["__proto__"] stores every entry and leaves the prototype. *)
Lemma reduce_entries (table : list Currency) (init : Dictionary) :
  Forall (fun currency => code currency <> "__proto__") table ->
  fold_left (fun map currency => assign map (code currency) currency)
    table init
  = {| entries :=
         fold_left (fun map currency => <[code currency := currency]> map)
           table (entries init);
       prototype := prototype init |}.
Proof.
  revert init. induction table as [|c table IH]; intros init H; simpl.
  - destruct init; reflexivity.
  - apply List.Forall_cons_iff in H as [Hc H]. rewrite IH by assumption.
    unfold assign. destruct (String.eqb_spec (code c) "__proto__");
      [contradiction | reflexivity].
Qed.

(** Folding [map[currency.code] = currency] over a table without repeated
    codes gives the map that sends a code to its entry. *)
Lemma reduce_lookup (table : list Currency) (init : gmap string Currency)
    (k : string) :
  NoDup (List.map code table) ->
  fold_left (fun map currency => <[code currency := currency]> map) table init
    !! k
  = match List.find (fun currency => String.eqb (code currency) k) table with
    | Some currency => Some currency
    | None => init !! k
    end.
Proof.
  revert init. induction table as [|c table IH]; intros init Hnd; simpl.
  - reflexivity.
  - apply NoDup_cons in Hnd as [Hnotin Hnd]. rewrite IH by assumption.
    destruct (String.eqb_spec (code c) k) as [Heq | Hne].
    + subst k.
      destruct (List.find _ table) as [c'|] eqn:Hfind.
      * apply find_some in Hfind as [Hin Hc'].
        apply String.eqb_eq in Hc'. exfalso. apply Hnotin.
        rewrite <- Hc'. apply list_elem_of_In, in_map, Hin.
      * apply lookup_insert_eq.
    + destruct (List.find _ table); [reflexivity|].
      now apply lookup_insert_ne.
Qed.

Lemma CURRENCY_MAP_unfold :
  CURRENCY_MAP
  = {| entries :=
         fold_left (fun map currency => <[code currency := currency]> map)
           CURRENCIES ∅;
       prototype := None |}.
Proof.
  unfold CURRENCY_MAP. rewrite reduce_entries; [reflexivity|].
  eapply List.Forall_impl; [|apply CURRENCIES_codes_plain].
  intros c Hc E. cbv beta in Hc. rewrite E in Hc. discriminate Hc.
Qed.

(** The own entries are those of the table, each under its code. *)
Lemma CURRENCY_MAP_entries (k : string) (currency : Currency) :
  entries CURRENCY_MAP !! k = Some currency
  <-> In currency CURRENCIES /\ code currency = k.
Proof.
  rewrite CURRENCY_MAP_unfold. cbn [entries].
  rewrite reduce_lookup by apply CURRENCIES_codes_NoDup.
  rewrite lookup_empty. split.
  - destruct (List.find _ CURRENCIES) as [c|] eqn:Hfind; [|discriminate].
    intros [= ->]. apply find_some in Hfind as [Hin Hc].
    now apply String.eqb_eq in Hc.
  - intros [Hin Hcode].
    destruct (List.find _ CURRENCIES) as [c|] eqn:Hfind.
    + apply find_some in Hfind as [Hin' Hc]. apply String.eqb_eq in Hc.
      f_equal. pose proof CURRENCIES_codes_NoDup as Hnd.
      clear -Hin Hin' Hc Hcode Hnd. subst k.
      induction CURRENCIES as [|a l IHl]; [destruct Hin|].
      simpl in Hnd. apply NoDup_cons in Hnd as [Hnotin Hnd].
      destruct Hin as [-> | Hin], Hin' as [-> | Hin']; auto.
      * exfalso. apply Hnotin. rewrite <- Hc.
        apply list_elem_of_In, in_map, Hin'.
      * exfalso. apply Hnotin. rewrite Hc.
        apply list_elem_of_In, in_map, Hin.
    + exfalso. apply (find_none _ _ Hfind) in Hin.
      apply String.eqb_neq in Hin. contradiction.
Qed.

(** A read of [CURRENCY_MAP]: the entry of the table with that code, else
    the member of [Object.prototype] of that name, else [undefined]. *)
Lemma read_CURRENCY_MAP (k : string) :
  read CURRENCY_MAP k
  = match entries CURRENCY_MAP !! k with
    | Some currency => Some (stored currency)
    | None => ofObjectPrototype k
    end.
Proof.
  unfold read. replace (prototype CURRENCY_MAP) with (@None Currency);
    [reflexivity|]. now rewrite CURRENCY_MAP_unfold.
Qed.

Lemma read_CURRENCY_MAP_stored (k : string) (currency : Currency) :
  read CURRENCY_MAP k = Some (stored currency)
  <-> In currency CURRENCIES /\ code currency = k.
Proof.
  rewrite read_CURRENCY_MAP, <- CURRENCY_MAP_entries.
  destruct (entries CURRENCY_MAP !! k) as [c|].
  - split; intros [= ->]; reflexivity.
  - unfold ofObjectPrototype. destruct (existsb _ _); split; discriminate.
Qed.

Lemma read_CURRENCY_MAP_None (k : string) :
  read CURRENCY_MAP k = None
  <-> ~ In k (List.map code CURRENCIES) /\ ~ In k Object_prototype_keys.
Proof.
  rewrite read_CURRENCY_MAP.
  destruct (entries CURRENCY_MAP !! k) as [c|] eqn:E.
  - apply CURRENCY_MAP_entries in E as [Hin Hc]. split; [discriminate|].
    intros [Hnot _]. exfalso. apply Hnot. rewrite <- Hc. now apply in_map.
  - assert (Hnot : ~ In k (List.map code CURRENCIES)).
    { intros Hin. apply in_map_iff in Hin as (c & Hc & Hin).
      assert (entries CURRENCY_MAP !! k = Some c)
        by (apply CURRENCY_MAP_entries; auto).
      congruence. }
    unfold ofObjectPrototype.
    destruct (existsb (String.eqb k) Object_prototype_keys) eqn:Ex.
    + split; [discriminate|]. intros [_ Hk]. exfalso. apply Hk.
      apply existsb_exists in Ex as (x & Hx & Hkx).
      apply String.eqb_eq in Hkx. now subst x.
    + split; [|reflexivity]. intros _. split; [exact Hnot|].
      intros Hin. rewrite <- not_true_iff_false in Ex. apply Ex.
      apply existsb_exists. exists k. split; [exact Hin|].
      apply String.eqb_refl.
Qed.

Lemma CURRENCY_MAP_minorUnit (k : string) (currency : Currency) :
  read CURRENCY_MAP k = Some (stored currency) ->
  (minorUnit currency <= 3)%nat.
Proof.
  intros H. apply read_CURRENCY_MAP_stored in H as [Hin _].
  pose proof CURRENCIES_minorUnit_le_3 as Hall.
  rewrite List.Forall_forall in Hall. now apply Hall.
Qed.

Section FormatProperties.

Variable Number_toString : number -> string.

Lemma toFixed_in_range (x : number) (f : nat) :
  (f <= 100)%nat ->
  toFixed Number_toString x f = Return (toFixedDigits Number_toString x f).
Proof.
  intros H. unfold toFixed.
  destruct (Nat.ltb_spec 100 f); [lia | reflexivity].
Qed.

(** C10, amended. For every finite amount below 10^21 in magnitude:
    for a code under which [CURRENCY_MAP] yields nothing, [formatCurrency]
    is the amount written to exactly two decimal places, with no symbol;
    for a code under which it yields an entry, the symbol of the entry
    and then the amount written to exactly [minorUnit] decimal places.
    The entries are those of [CURRENCIES], each under its code, and the
    map yields nothing exactly for the codes that are neither in the
    table nor the name of a member of [Object.prototype].  The optional
    third argument plays no part. *)
Theorem formatCurrency_written_to_minor_unit
    (amount : number) (currencyCode : CurrencyCode) (override : option nat) :
  below1e21 amount = true ->
  (read CURRENCY_MAP currencyCode = None ->
   exists s : string,
     formatCurrency Number_toString amount currencyCode override = Return s
     /\ writtenTo 2 amount s)
  /\ (forall currency : Currency,
        read CURRENCY_MAP currencyCode = Some (stored currency) ->
        exists s : string,
          formatCurrency Number_toString amount currencyCode override
          = Return (symbol currency ++ s)%string
          /\ writtenTo (minorUnit currency) amount s)
  /\ (forall currency : Currency,
        In currency CURRENCIES ->
        read CURRENCY_MAP (code currency) = Some (stored currency))
  /\ (read CURRENCY_MAP currencyCode = None
      <-> ~ In currencyCode (List.map code CURRENCIES)
          /\ ~ In currencyCode Object_prototype_keys).
Proof.
  intros Hsmall. split; [|split; [|split]].
  - intros Hnone. unfold formatCurrency. rewrite Hnone.
    rewrite toFixed_in_range by lia.
    eexists. split; [reflexivity|]. now apply toFixedDigits_written.
  - intros currency Hsome. unfold formatCurrency. rewrite Hsome.
    cbn [truthy negb symbolText minorUnitDigits].
    apply CURRENCY_MAP_minorUnit in Hsome.
    rewrite toFixed_in_range by lia.
    eexists. split; [reflexivity|]. now apply toFixedDigits_written.
  - intros currency Hin. apply read_CURRENCY_MAP_stored. auto.
  - apply read_CURRENCY_MAP_None.
Qed.

End FormatProperties.

Lemma formatCurrency_written_witness :
  below1e21 (decimal 5 2) = true
  /\ formatCurrency noToString (decimal 5 2) "USD" None = Return "$0.05"
  /\ formatCurrency noToString (decimal (-123456) 2) "JPY" None
     = Return "¥-1235"
  /\ formatCurrency noToString (decimal 1 6) "USD" (Some 0%nat)
     = Return "$0.00"
  /\ formatCurrency noToString (decimal 123456 2) "XAU" None
     = Return "1234.56"
  /\ exists s : string,
       formatCurrency noToString (decimal 5 2) "USD" None
       = Return ("$" ++ s)%string
       /\ writtenTo 2 (decimal 5 2) s.
Proof.
  split; [vm_compute; reflexivity|].
  split; [vm_compute; reflexivity|].
  split; [vm_compute; reflexivity|].
  split; [vm_compute; reflexivity|].
  split; [vm_compute; reflexivity|].
  apply (proj1 (proj2 (formatCurrency_written_to_minor_unit noToString
                         (decimal 5 2) "USD" None ltac:(vm_compute; reflexivity)))
           (mkCurrency "USD" "US Dollar" "$" 2 "🇺🇸")).
  vm_compute. reflexivity.
Defined.

(** C10 as stated fails: not every amount can be written to two decimal
    places.  NaN and the infinities come back by name, after the symbol
    when the code has one. *)
Lemma formatCurrency_not_every_amount :
  formatCurrency noToString S754_nan "XAU" None = Return "NaN"
  /\ formatCurrency noToString S754_nan "USD" None = Return "$NaN"
  /\ formatCurrency noToString (S754_infinity false) "XAU" None
     = Return "Infinity"
  /\ formatCurrency noToString (S754_infinity true) "EUR" None
     = Return "€-Infinity"
  /\ isFinite S754_nan = false
  /\ below1e21 S754_nan = false
  /\ below1e21 (S754_infinity false) = false.
Proof. repeat split; vm_compute; reflexivity. Qed.

(** A code that is the name of a member of [Object.prototype] is read as
    that member: it is truthy and has neither [symbol] nor [minorUnit], so
    the amount comes back to no decimal place after the text
    ["undefined"]. *)
Example formatCurrency_inherited_names :
  read CURRENCY_MAP "constructor" = Some (builtin "constructor")
  /\ formatCurrency noToString (decimal 123456 2) "constructor" None
     = Return "undefined1235"
  /\ formatCurrency noToString (decimal 123456 2) "toString" None
     = Return "undefined1235"
  /\ formatCurrency noToString (decimal 123456 2) "__proto__" None
     = Return "undefined1235"
  /\ formatCurrency noToString (decimal 123456 2) "usd" None
     = Return "1234.56".
Proof. repeat split; vm_compute; reflexivity. Qed.

(** ** Arithmetic on amounts *)

(** What [wf] says of a finite double. *)
Lemma wf_finite (s : bool) (m : positive) (e : Z) :
  wf (S754_finite s m e) = true ->
  Z.pos m < 2 ^ 53 /\ -1074 <= e <= 971
  /\ fexp prec emax (Zdigits2 (Z.pos m) + e) = e
  /\ (-1074 < e -> 2 ^ 52 <= Z.pos m).
Proof.
  unfold wf, valid_binary, bounded, canonical_mantissa.
  intros H. apply andb_true_iff in H as [Hc Hb].
  apply Z.eqb_eq in Hc. apply Z.leb_le in Hb.
  change (emax - prec) with 971 in Hb.
  change (Z.pos (digits2_pos m)) with (Zdigits2 (Z.pos m)) in Hc.
  pose proof (Zdigits2_bounds (Z.pos m) ltac:(lia)) as [Hlo Hhi].
  rewrite fexp_unfold in Hc.
  assert (Hd : Zdigits2 (Z.pos m) <= 53) by lia.
  assert (Hm : Z.pos m < 2 ^ 53).
  { assert (2 ^ Zdigits2 (Z.pos m) <= 2 ^ 53)
      by (apply Z.pow_le_mono_r; lia). lia. }
  split; [exact Hm|]. split; [lia|]. split; [rewrite fexp_unfold; exact Hc|].
  intros He. assert (Zdigits2 (Z.pos m) = 53) as E by lia.
  rewrite E in Hlo. exact Hlo.
Qed.

Lemma mul_one_r (x : number) : wf x = true -> mul x (ofZ 1) = x.
Proof.
  intros Hwf. change (ofZ 1) with (S754_finite false 4503599627370496 (-52)).
  destruct x as [s|s| |s m e]; try (destruct s; reflexivity); [reflexivity|].
  apply wf_finite in Hwf as (Hm & He & Hc & Hn).
  unfold mul, SFmul. rewrite xorb_false_r, Pos2Z.inj_mul.
  change (Z.pos 4503599627370496) with (2 ^ 52).
  pose proof (Zdigits2_bounds (Z.pos m) ltac:(lia)) as [Hlo Hhi].
  set (d := Zdigits2 (Z.pos m)) in *.
  assert (Hdpos : 0 < d) by (apply Zdigits2_pos; lia).
  assert (Hd : Zdigits2 (Z.pos m * 2 ^ 52) = d + 52).
  { assert (H52 : 0 < 2 ^ 52) by reflexivity.
    apply Zdigits2_unique; [|lia].
    replace (d + 52 - 1) with (d - 1 + 52) by lia.
    rewrite (Z.pow_add_r 2 (d - 1) 52), (Z.pow_add_r 2 d 52) by lia.
    split; [apply Z.mul_le_mono_nonneg_r | apply Z.mul_lt_mono_pos_r]; lia. }
  destruct (binary_round_aux_spec s (Z.pos m * 2 ^ 52) (e + -52) loc_Exact
              (Z.pos m * 2 ^ 52) 1)
    as (m2 & Hm2 & Herr & _ & ->);
    [lia | lia | apply represents_exact; lia |].
  rewrite Hd in *.
  replace (d + 52 + (e + -52)) with (d + e) in * by lia.
  rewrite Hc in *.
  replace (e - (e + -52)) with 52 in * by lia.
  assert (m2 = Z.pos m) by lia. subst m2.
  destruct (Z.eqb_spec (Z.pos m) 0); [lia|].
  destruct (Z.ltb_spec (Z.pos m) (2 ^ 53)); [|lia].
  destruct (Z.leb_spec e 971); [|lia]. reflexivity.
Qed.

Lemma mul_comm (x y : number) : mul x y = mul y x.
Proof.
  unfold mul, SFmul.
  destruct x as [sx|sx| |sx mx ex], y as [sy|sy| |sy my ey];
    try reflexivity; try (now rewrite xorb_comm).
  now rewrite xorb_comm, Pos.mul_comm, Z.add_comm.
Qed.

(** X8. A rate of one leaves every amount as it is, on either side. *)
Theorem convertAmount_rate_one (amount : number) :
  wf amount = true ->
  convertAmount amount (ofZ 1) = amount
  /\ convertAmount (ofZ 1) amount = amount.
Proof.
  intros H. unfold convertAmount. rewrite (mul_comm (ofZ 1)).
  split; apply mul_one_r, H.
Qed.

Lemma convertAmount_rate_one_witness :
  wf (decimal 93456 3) = true
  /\ convertAmount (decimal 93456 3) (ofZ 1) = decimal 93456 3
  /\ convertAmount (ofZ 1) (decimal 93456 3) = decimal 93456 3.
Proof.
  split; [vm_compute; reflexivity|].
  apply (convertAmount_rate_one (decimal 93456 3)). vm_compute. reflexivity.
Defined.

(** X10. The double of a decimal amount [k / 10^n] with up to three
    places and [k] below 2^51 in magnitude is left as it is by rounding
    to [n] places. *)
Theorem roundToDecimals_keeps_decimal (n : nat) (k : Z) :
  (n <= 3)%nat -> Z.abs k < 2 ^ 51 ->
  roundToDecimals (decimal k n) n = decimal k n
  /\ roundToMinorUnit (decimal k n) n = decimal k n.
Proof.
  intros Hn Hk. unfold roundToMinorUnit, roundToDecimals, decimal.
  change (ofZ (10 ^ Z.of_nat n)) with (Math_pow 10 n).
  assert (Hr : (exists s, ofZ k = S754_zero s)
               \/ (exists k', ofZ k = ofZ k' /\ k' <> 0 /\ Z.abs k' < 2 ^ 51)).
  { destruct (Z.eq_dec k 0) as [->|Hnz]; [left; exists false; reflexivity|].
    right. exists k. auto. }
  destruct (round_trip_rounded n (ofZ k) Hn Hr) as [-> _].
  split; reflexivity.
Qed.

Lemma roundToDecimals_keeps_decimal_witness :
  (2 <= 3)%nat /\ Z.abs 123456 < 2 ^ 51
  /\ roundToDecimals (decimal 123456 2) 2 = decimal 123456 2
  /\ roundToMinorUnit (decimal 123456 2) 2 = decimal 123456 2.
Proof.
  split; [lia|]. split; [reflexivity|].
  apply (roundToDecimals_keeps_decimal 2 123456); [lia | reflexivity].
Defined.

(** X11. [isSafeNumber] holds of the finite doubles of magnitude at most
    2^53 - 1 and of nothing else. *)
Theorem isSafeNumber_exact (value : number) :
  wf value = true ->
  (isSafeNumber value = true <-> withinSafeRange value).
Proof.
  intros Hwf. unfold isSafeNumber, withinSafeRange.
  change MAX_SAFE_INTEGER with (S754_finite false 9007199254740991 0).
  destruct value as [s|s| |s m e]; cbn [isFinite isNaN negb andb Math_abs SFabs].
  - split; [trivial | reflexivity].
  - split; [discriminate | contradiction].
  - split; [discriminate | contradiction].
  - apply wf_finite in Hwf as (Hm & He & _ & Hn).
    unfold SFleb, SFcompare.
    destruct (Z.compare_spec e 0) as [->|Hlt|Hgt].
    + cbn [Z.leb Z.compare]. change (2 ^ 0) with 1. rewrite Z.mul_1_r.
      assert (Hc : exists c, Z.pos c = 2 ^ 53 - 1 /\ c = 9007199254740991%positive)
        by (eexists; split; reflexivity).
      destruct Hc as (c & Hc & <-).
      rewrite Pos.compare_cont_spec. unfold Pos.switch_Eq.
      destruct (Pos.compare_spec m c) as [E|E|E];
        split; intros; try reflexivity; try discriminate; lia.
    + destruct (Z.leb_spec 0 e); [lia|].
      assert (0 < 2 ^ (- e)) by (apply pow2_pos; lia).
      assert (2 <= 2 ^ (- e)).
      { change 2 with (2 ^ 1) at 1. apply Z.pow_le_mono_r; lia. }
      set (P := 2 ^ (- e)) in *. clearbody P.
      assert ((2 ^ 53 - 1) * 2 <= (2 ^ 53 - 1) * P)
        by (apply Z.mul_le_mono_nonneg_l; lia).
      split; [intros _; lia | reflexivity].
    + destruct (Z.leb_spec 0 e); [|lia].
      assert (2 <= 2 ^ e).
      { change 2 with (2 ^ 1) at 1. apply Z.pow_le_mono_r; lia. }
      split; [discriminate|]. intros Hle. exfalso.
      assert (2 ^ 52 <= Z.pos m) by (apply Hn; lia).
      set (P := 2 ^ e) in *. clearbody P.
      assert (2 ^ 52 * 2 <= Z.pos m * P)
        by (apply Z.mul_le_mono_nonneg; lia).
      lia.
Qed.

Lemma isSafeNumber_exact_witness :
  wf (ofZ (2 ^ 53 - 1)) = true
  /\ isSafeNumber (ofZ (2 ^ 53 - 1)) = true
  /\ isSafeNumber (ofZ (2 ^ 53)) = false
  /\ isSafeNumber (ofZ (- (2 ^ 53 - 1))) = true
  /\ isSafeNumber S754_nan = false
  /\ isSafeNumber (S754_infinity false) = false
  /\ (isSafeNumber (decimal 5 1) = true <-> withinSafeRange (decimal 5 1)).
Proof.
  split; [vm_compute; reflexivity|].
  split; [vm_compute; reflexivity|].
  split; [vm_compute; reflexivity|].
  split; [vm_compute; reflexivity|].
  split; [reflexivity|]. split; [reflexivity|].
  apply (isSafeNumber_exact (decimal 5 1)). vm_compute. reflexivity.
Defined.

Lemma shr_fexp_nonneg (m e : Z) :
  0 <= m -> 0 <= shr_m (fst (shr_fexp prec emax m e loc_Exact)).
Proof.
  intros Hm. unfold shr_fexp.
  set (n := fexp prec emax (Zdigits2 m + e) - e).
  destruct (Z.le_gt_cases n 0) as [Hn|Hn].
  - rewrite shr_nonpos by assumption. exact Hm.
  - destruct (shr_represents (shr_record_of_loc m loc_Exact) e n m 1
                (represents_exact m Hm) ltac:(lia)) as [Hrep _].
    apply Hrep.
Qed.

Lemma binary_round_aux_not_nan (s : bool) (mx ex : Z) :
  0 <= mx -> binary_round_aux prec emax s mx ex loc_Exact <> S754_nan.
Proof.
  intros Hmx. unfold binary_round_aux.
  pose proof (shr_fexp_nonneg mx ex Hmx) as H1.
  destruct (shr_fexp prec emax mx ex loc_Exact) as [mrs' e'] eqn:E1.
  cbn [fst] in H1.
  assert (H2 : 0 <= round_nearest_even (shr_m mrs') (loc_of_shr_record mrs')).
  { destruct mrs' as [m r t]. cbn [shr_m] in *.
    destruct r, t; cbn [loc_of_shr_record round_nearest_even];
      try destruct (Z.even m); lia. }
  pose proof (shr_fexp_nonneg _ e' H2) as H3.
  destruct (shr_fexp prec emax _ e' loc_Exact) as [mrs'' e''].
  cbn [fst] in H3.
  destruct (shr_m mrs'') as [|p|p]; [discriminate | | lia].
  destruct (e'' <=? emax - prec); discriminate.
Qed.

(** X9. The conversion is symmetric in its arguments, and its result is
    NaN only for a NaN argument or for zero times an infinity: two finite
    numbers never give NaN. *)
Theorem convertAmount_commutes_nan (amount rate : number) :
  convertAmount amount rate = convertAmount rate amount
  /\ isNaN (convertAmount amount rate)
     = isNaN amount || isNaN rate
       || isZero amount && isInfinite rate
       || isInfinite amount && isZero rate.
Proof.
  split; [apply mul_comm|].
  unfold convertAmount, mul, SFmul.
  destruct amount as [sa|sa| |sa ma ea], rate as [sr|sr| |sr mr er];
    try reflexivity.
  cbn [isNaN isZero isInfinite orb andb].
  pose proof (binary_round_aux_not_nan (xorb sa sr) (Z.pos (ma * mr))
                (ea + er) ltac:(lia)) as H.
  destruct (binary_round_aux _ _ _ _ _ _); try reflexivity. contradiction.
Qed.

Lemma Math_pow_10_overflow (n : nat) :
  (309 <= n)%nat -> Math_pow 10 n = S754_infinity false.
Proof.
  intros Hn. unfold Math_pow, ofZ, binary_normalize.
  assert (Hbig : 2 ^ 1024 <= 10 ^ Z.of_nat n).
  { transitivity (10 ^ 309); [vm_compute; discriminate|].
    apply Z.pow_le_mono_r; lia. }
  assert (H1024 : 0 < 2 ^ 1024) by (apply pow2_pos; lia).
  destruct (10 ^ Z.of_nat n) as [|p|p] eqn:Ep; [lia | | lia].
  assert (Hd : 1025 <= Zdigits2 (Z.pos p))
    by (apply Zdigits2_ge; [lia | exact Hbig]).
  unfold binary_round, shl_align.
  change (Z.pos (digits2_pos p)) with (Zdigits2 (Z.pos p)).
  rewrite fexp_unfold.
  destruct (Z.max (Zdigits2 (Z.pos p) + 0 - 53) (-1074) - 0) as [|q|q] eqn:Eq;
    [ | | lia].
  - lia.
  - destruct (binary_round_aux_spec false (Z.pos p) 0 loc_Exact (Z.pos p) 1)
      as (m2 & Hm2 & _ & Hnormal & ->);
      [lia | lia | apply represents_exact; lia |].
    rewrite fexp_unfold in *.
    assert (2 ^ 52 <= m2) by (apply Hnormal; lia).
    destruct (Z.eqb_spec m2 0); [lia|].
    destruct (m2 <? 2 ^ 53).
    + destruct (Z.leb_spec (Z.max (Zdigits2 (Z.pos p) + 0 - 53) (-1074)) 971);
        [lia | reflexivity].
    + destruct (Z.leb_spec (Z.max (Zdigits2 (Z.pos p) + 0 - 53) (-1074) + 1) 971);
        [lia | reflexivity].
Qed.

Lemma Math_pow_10_finite (n : nat) :
  (n <= 308)%nat -> isPositiveFinite (Math_pow 10 n) = true.
Proof.
  intros Hn.
  assert (H : forallb (fun n => isPositiveFinite (Math_pow 10 n)) (seq 0 309)
              = true) by (vm_compute; reflexivity).
  rewrite forallb_forall in H. apply H. apply in_seq. lia.
Qed.



(** ** Zero decimals *)

Lemma wf_of_normal (s : bool) (m : positive) (e : Z) :
  2 ^ 52 <= Z.pos m < 2 ^ 53 -> -1074 <= e <= 971 ->
  wf (S754_finite s m e) = true.
Proof.
  intros Hm He. unfold wf, valid_binary, bounded, canonical_mantissa.
  change (Z.pos (digits2_pos m)) with (Zdigits2 (Z.pos m)).
  replace (Zdigits2 (Z.pos m)) with 53
    by (symmetry; apply Zdigits2_unique; lia).
  rewrite fexp_unfold. apply andb_true_iff. split.
  - apply Z.eqb_eq. lia.
  - apply Z.leb_le. change (emax - prec) with 971. lia.
Qed.

(** Dividing a normal double by one gives it back. *)
Lemma div_one_r (s : bool) (m : positive) (e : Z) :
  2 ^ 52 <= Z.pos m < 2 ^ 53 -> -1074 <= e <= 971 ->
  div (S754_finite s m e) (ofZ 1) = S754_finite s m e.
Proof.
  intros Hm He. change (ofZ 1) with (S754_finite false 4503599627370496 (-52)).
  unfold div, SFdiv, SFdiv_core_binary.
  replace (Zdigits2 (Z.pos m)) with 53
    by (symmetry; apply Zdigits2_unique; lia).
  change (Zdigits2 (Z.pos 4503599627370496)) with 53.
  rewrite fexp_unfold, xorb_false_r.
  change (Z.pos 4503599627370496) with (2 ^ 52).
  destruct (Z.eq_dec e (-1074)) as [->|Hne].
  - replace (Z.min (Z.max (53 + -1074 - (53 + -52) - 53) (-1074))
               (-1074 - -52)) with (-1074) by reflexivity.
    replace (-1074 - -52 - -1074) with 52 by reflexivity.
    cbv iota beta.
    rewrite Z.shiftl_mul_pow2 by lia.
    pose proof (Z_div_mod (Z.pos m * 2 ^ 52) (2 ^ 52) ltac:(lia)) as Hdm.
    destruct (Z.div_eucl (Z.pos m * 2 ^ 52) (2 ^ 52)) as [q r].
    destruct Hdm as [Hq Hr].
    assert (q = Z.pos m /\ r = 0) as [-> ->] by lia.
    change (new_location (2 ^ 52) 0) with loc_Exact.
    apply binary_round_aux_canonical; lia.
  - replace (Z.min (Z.max (53 + e - (53 + -52) - 53) (-1074)) (e - -52))
      with (e - 1) by lia.
    replace (e - -52 - (e - 1)) with 53 by lia.
    cbv iota beta.
    rewrite Z.shiftl_mul_pow2 by lia.
    pose proof (Z_div_mod (Z.pos m * 2 ^ 53) (2 ^ 52) ltac:(lia)) as Hdm.
    destruct (Z.div_eucl (Z.pos m * 2 ^ 53) (2 ^ 52)) as [q r].
    destruct Hdm as [Hq Hr].
    assert (q = 2 * Z.pos m /\ r = 0) as [-> ->] by lia.
    change (new_location (2 ^ 52) 0) with loc_Exact.
    assert (Hd : Zdigits2 (2 * Z.pos m) = 54) by (apply Zdigits2_unique; lia).
    destruct (binary_round_aux_spec s (2 * Z.pos m) (e - 1) loc_Exact
                (2 * Z.pos m) 1)
      as (m2 & Hm2 & Herr & _ & ->);
      [lia | lia | apply represents_exact; lia |].
    rewrite Hd, fexp_unfold in *.
    replace (Z.max (54 + (e - 1) - 53) (-1074)) with e in * by lia.
    replace (e - (e - 1)) with 1 in * by lia. change (2 ^ 1) with 2 in *.
    assert (m2 = Z.pos m) by lia. subst m2.
    destruct (Z.eqb_spec (Z.pos m) 0); [lia|].
    destruct (Z.ltb_spec (Z.pos m) (2 ^ 53)); [|lia].
    destruct (Z.leb_spec e 971); [|lia]. reflexivity.
Qed.

(** What [Math.round] returns for a double: the double itself, a zero,
    or the double of a non-zero integer up to 2^52 in magnitude that it
    leaves as it is. *)
Lemma Math_round_cases (x : number) :
  wf x = true ->
  (Math_round x = x
   /\ match x with S754_finite _ _ e => 0 <= e | _ => True end)
  \/ (exists s, Math_round x = S754_zero s)
  \/ (exists n, Math_round x = ofZ n /\ n <> 0 /\ Z.abs n < 2 ^ 53).
Proof.
  intros Hwf. destruct x as [s|s| |s m e]; try (left; split; [reflexivity | exact I]).
  apply wf_finite in Hwf as (Hm & He & _ & _).
  unfold Math_round. destruct (Z.leb_spec 0 e) as [Hpos|Hneg];
    [left; split; [reflexivity | exact Hpos]|].
  assert (HD : 2 <= 2 ^ (- e)).
  { change 2 with (2 ^ 1) at 1. apply Z.pow_le_mono_r; lia. }
  set (D := 2 ^ (- e)) in *. clearbody D.
  set (v := if s then Z.neg m else Z.pos m).
  assert (Hv : Z.abs v < 2 ^ 53) by (unfold v; destruct s; simpl; lia).
  clearbody v.
  pose proof (Z.div_mod (2 * v + D) (2 * D) ltac:(lia)) as Hdm.
  pose proof (Z.mod_pos_bound (2 * v + D) (2 * D) ltac:(lia)) as Hb.
  set (n := (2 * v + D) `div` (2 * D)) in *. clearbody n.
  set (r := (2 * v + D) `mod` (2 * D)) in *. clearbody r.
  destruct (Z.eqb_spec n 0); [right; left; eauto|].
  right. right. exists n. split; [reflexivity|]. split; [assumption|].
  assert (2 * D * Z.abs n <= 2 * Z.abs v + 3 * D) by nia.
  assert (2 * D * Z.abs n < 2 * D * 2 ^ 53); [|nia].
  assert (2 * Z.abs v + 3 * D < 2 * D * 2 ^ 53); [|lia].
  assert (2 * Z.abs v < D * 2 ^ 53) by nia.
  assert (3 * D <= D * 2 ^ 53) by nia.
  nia.
Qed.

(** The double of a non-zero integer below 2^53 in magnitude is normal,
    and [Math.round] leaves it. *)
Lemma ofZ_integer (n : Z) :
  n <> 0 -> Z.abs n < 2 ^ 53 ->
  exists (s : bool) (m : positive) (e : Z),
    ofZ n = S754_finite s m e
    /\ 2 ^ 52 <= Z.pos m < 2 ^ 53 /\ -52 <= e <= 0
    /\ Math_round (ofZ n) = ofZ n.
Proof.
  intros Hn Hlt.
  destruct (ofZ_canonical n Hn Hlt) as (E & Hrange & Hd & Hb).
  set (d := Zdigits2 n) in *. clearbody d.
  set (P := 2 ^ (53 - d)) in *.
  assert (HP : 0 < P) by (apply pow2_pos; lia).
  exists (n <? 0), (Z.to_pos (Z.abs n * P)), (d - 53).
  split; [exact E|]. rewrite Z2Pos.id by lia.
  split; [exact Hrange|]. split; [lia|].
  rewrite E. destruct (Z.eq_dec d 53) as [->|Hd53].
  - reflexivity.
  - rewrite <- E. rewrite E at 1. apply Math_round_near; [lia | exact Hn |].
    replace (- (d - 53)) with (53 - d) by lia. fold P.
    replace (if n <? 0 then Z.neg (Z.to_pos (Z.abs n * P))
             else Z.pos (Z.to_pos (Z.abs n * P))) with (n * P).
    + lia.
    + destruct (Z.ltb_spec n 0).
      * rewrite <- Pos2Z.opp_pos, Z2Pos.id by lia. lia.
      * rewrite Z2Pos.id by lia. lia.
Qed.

Lemma div_zero_one (s : bool) : div (S754_zero s) (ofZ 1) = S754_zero s.
Proof. destruct s; reflexivity. Qed.

(** X15. With no decimals the function is [Math.round], and rounding
    twice is rounding once, for every double. *)
Theorem roundToDecimals_zero_decimals (value : number) :
  wf value = true ->
  roundToDecimals value 0 = Math_round value
  /\ roundToMinorUnit (roundToMinorUnit value 0) 0 = roundToMinorUnit value 0.
Proof.
  assert (Hone : forall x, wf x = true -> roundToDecimals x 0 = Math_round x).
  { intros x Hwf. unfold roundToDecimals.
    change (Math_pow 10 0) with (ofZ 1). rewrite (mul_one_r x Hwf).
    destruct (Math_round_cases x Hwf) as [[E Hx]|[[s E]|(n & E & Hn & Hlt)]];
      rewrite E.
    - destruct x as [s|s| |s m e]; try (destruct s; reflexivity);
        [reflexivity|].
      apply wf_finite in Hwf as (Hm & He & _ & Hnormal).
      apply div_one_r; [split; [apply Hnormal|]|]; lia.
    - apply div_zero_one.
    - destruct (ofZ_integer n Hn Hlt) as (s' & m' & e' & -> & Hm' & He' & _).
      apply div_one_r; lia. }
  intros Hwf. split; [apply Hone, Hwf|].
  unfold roundToMinorUnit. rewrite (Hone value Hwf).
  destruct (Math_round_cases value Hwf) as [[E _]|[[s E]|(n & E & Hn & Hlt)]].
  - rewrite E. rewrite (Hone value Hwf). exact E.
  - rewrite E. destruct s; reflexivity.
  - rewrite E.
    destruct (ofZ_integer n Hn Hlt) as (s' & m' & e' & E' & Hm' & He' & Hfix).
    rewrite Hone; [exact Hfix|]. rewrite E'. apply wf_of_normal; lia.
Qed.

Lemma roundToDecimals_zero_decimals_witness :
  wf (decimal 35 1) = true
  /\ roundToDecimals (decimal 35 1) 0
     = Math_round (decimal 35 1)
  /\ roundToMinorUnit (roundToMinorUnit (decimal 35 1) 0) 0
     = roundToMinorUnit (decimal 35 1) 0.
Proof.
  split; [vm_compute; reflexivity|].
  apply (roundToDecimals_zero_decimals (decimal 35 1)).
  vm_compute. reflexivity.
Defined.

(** ** The rate formatter *)


Example formatRate_examples :
  formatRate noToString (decimal 935 3) 4 = Return "0.9350"
  /\ formatRate noToString (decimal 14125678 5) 2 = Return "141.26"
  /\ formatRate noToString (decimal 1234 8) 6 = Return "0.000012"
  /\ formatRate noToString (decimal (-5) 1) 0 = Return "-1"
  /\ formatRate noToString (decimal 25 1) 0 = Return "3"
  /\ formatRate noToString (decimal 935 3) 101
     = Throw (RangeError "toFixed() digits argument must be between 0 and 100").
Proof. repeat split; vm_compute; reflexivity. Qed.

(** ** The input helpers *)

Ltac norm_append :=
  repeat (rewrite ?append_String, ?append_empty_l in *).

Lemma append_assoc (a b c : string) :
  ((a ++ b) ++ c)%string = (a ++ (b ++ c))%string.
Proof.
  induction a as [|x a IH]; [reflexivity|].
  rewrite !append_String. now rewrite IH.
Qed.

Lemma append_eq_empty (s1 s2 : string) :
  (s1 ++ s2)%string = "" -> s1 = "" /\ s2 = "".
Proof. destruct s1; [auto | discriminate]. Qed.

Lemma append_eq_String (s1 s2 s : string) (c : ascii) :
  (s1 ++ s2)%string = String c s ->
  s1 = "" /\ s2 = String c s
  \/ exists s1', s1 = String c s1' /\ s = (s1' ++ s2)%string.
Proof.
  destruct s1 as [|c1 s1]; [auto|].
  rewrite append_String. intros [= -> <-]. right. eauto.
Qed.

Lemma Matches_Seq_inv (r1 r2 : regex) (s : string) :
  Matches (Seq r1 r2) s ->
  exists s1 s2, s = (s1 ++ s2)%string /\ Matches r1 s1 /\ Matches r2 s2.
Proof. intros H. inversion H; subst. eauto. Qed.

Lemma Matches_Alt_inv (r1 r2 : regex) (s : string) :
  Matches (Alt r1 r2) s -> Matches r1 s \/ Matches r2 s.
Proof. intros H. inversion H; subst; auto. Qed.

Lemma nullable_Matches (r : regex) : nullable r = true <-> Matches r "".
Proof.
  induction r as [| |c|p|r1 IH1 r2 IH2|r1 IH1 r2 IH2|r IH]; simpl.
  - split; intros H; [discriminate | inversion H].
  - split; intros H; [constructor | reflexivity].
  - split; intros H; [discriminate | inversion H].
  - split; intros H; [discriminate | inversion H].
  - rewrite orb_true_iff, IH1, IH2. split.
    + intros [H|H]; [apply MAltL | apply MAltR]; assumption.
    + apply Matches_Alt_inv.
  - rewrite andb_true_iff, IH1, IH2. split.
    + intros [H1 H2]. change "" with ("" ++ "")%string. now constructor.
    + intros H. apply Matches_Seq_inv in H as (s1 & s2 & E & H1 & H2).
      symmetry in E. apply append_eq_empty in E as [-> ->]. auto.
  - split; intros H; [constructor | reflexivity].
Qed.

Lemma Matches_Star_cons (r : regex) (c : ascii) (s : string) :
  Matches (Star r) (String c s) ->
  exists s1 s2, s = (s1 ++ s2)%string
                /\ Matches r (String c s1) /\ Matches (Star r) s2.
Proof.
  intros H. remember (Star r) as r' eqn:Er. remember (String c s) as w eqn:Ew.
  revert s Ew. induction H; intros t Ew; try discriminate.
  injection Er as ->.
  apply append_eq_String in Ew as [[-> ->]|(s1' & -> & ->)].
  - apply IHMatches2; reflexivity.
  - eauto.
Qed.

Lemma deriv_Matches (r : regex) :
  forall (c : ascii) (s : string),
    Matches (deriv c r) s <-> Matches r (String c s).
Proof.
  induction r as [| |c|p|r1 IH1 r2 IH2|r1 IH1 r2 IH2|r IH]; intros c' s; simpl.
  - split; intros H; inversion H.
  - split; intros H; inversion H.
  - destruct (Ascii.eqb_spec c' c) as [->|Hne]; split; intros H.
    + inversion H; subst. constructor.
    + inversion H; subst. constructor.
    + inversion H.
    + inversion H; subst. contradiction.
  - destruct (p c') eqn:Hp; split; intros H.
    + inversion H; subst. now constructor.
    + inversion H; subst. constructor.
    + inversion H.
    + inversion H; subst. congruence.
  - split; intros H; apply Matches_Alt_inv in H as [H|H].
    + apply MAltL, IH1. assumption.
    + apply MAltR, IH2. assumption.
    + apply MAltL, IH1. assumption.
    + apply MAltR, IH2. assumption.
  - assert (Hfwd : forall t, Matches (Seq (deriv c' r1) r2) t ->
                             Matches (Seq r1 r2) (String c' t)).
    { intros t H. apply Matches_Seq_inv in H as (s1 & s2 & -> & H1 & H2).
      rewrite <- append_String. constructor; [apply IH1|]; assumption. }
    destruct (nullable r1) eqn:Hn.
    + split; intros H.
      * apply Matches_Alt_inv in H as [H|H]; [now apply Hfwd|].
        rewrite <- (append_empty_l (String c' s)).
        constructor; [apply nullable_Matches | apply IH2]; assumption.
      * apply Matches_Seq_inv in H as (s1 & s2 & E & H1 & H2).
        symmetry in E.
        apply append_eq_String in E as [[-> ->]|(s1' & -> & ->)].
        -- apply MAltR, IH2. assumption.
        -- apply MAltL. constructor; [apply IH1|]; assumption.
    + split; intros H; [now apply Hfwd|].
      apply Matches_Seq_inv in H as (s1 & s2 & E & H1 & H2).
      symmetry in E.
      apply append_eq_String in E as [[-> ->]|(s1' & -> & ->)].
      * apply nullable_Matches in H1. congruence.
      * constructor; [apply IH1|]; assumption.
  - split; intros H.
    + apply Matches_Seq_inv in H as (s1 & s2 & -> & H1 & H2).
      rewrite <- append_String. constructor; [apply IH|]; assumption.
    + apply Matches_Star_cons in H as (s1 & s2 & -> & H1 & H2).
      constructor; [apply IH|]; assumption.
Qed.

Lemma test_Matches (s : string) :
  forall r : regex, test r s = true <-> Matches r s.
Proof.
  induction s as [|c s IH]; intros r; simpl.
  - apply nullable_Matches.
  - rewrite IH. apply deriv_Matches.
Qed.

Lemma Matches_Star_Class (p : ascii -> bool) (s : string) :
  Matches (Star (Class p)) s <-> allChars p s = true.
Proof.
  split.
  - intros H. remember (Star (Class p)) as r eqn:Er.
    induction H; try discriminate; [reflexivity|].
    injection Er as ->. inversion H; subst.
    rewrite append_String, append_empty_l. simpl.
    rewrite IHMatches2 by reflexivity. now rewrite andb_true_r.
  - induction s as [|c s IH]; simpl; intros H; [constructor|].
    apply andb_true_iff in H as [Hc Hs].
    change (String c s) with (String c "" ++ s)%string.
    constructor; [now constructor | auto].
Qed.

Lemma Matches_Plus_Class (p : ascii -> bool) (s : string) :
  Matches (Plus (Class p)) s <-> allChars p s = true /\ s <> "".
Proof.
  unfold Plus. split.
  - intros H. apply Matches_Seq_inv in H as (s1 & s2 & -> & H1 & H2).
    inversion H1; subst. rewrite append_String, append_empty_l. simpl.
    apply Matches_Star_Class in H2. rewrite H2. split; [|discriminate].
    now rewrite andb_true_r.
  - intros [H Hne]. destruct s as [|c s]; [contradiction|]. simpl in H.
    apply andb_true_iff in H as [Hc Hs].
    change (String c s) with (String c "" ++ s)%string.
    constructor; [now constructor | now apply Matches_Star_Class].
Qed.

Lemma Matches_Opt_Chr (c : ascii) (s : string) :
  Matches (Opt (Chr c)) s <-> s = "" \/ s = String c "".
Proof.
  unfold Opt. split.
  - intros H. apply Matches_Alt_inv in H as [H|H]; inversion H; subst; auto.
  - intros [-> | ->]; [apply MAltR | apply MAltL]; constructor.
Qed.

(** The strings of the number pattern: an optional minus sign, digits,
    an optional point, and at least one digit. *)
Lemma numberPattern_language (input : string) :
  Matches numberPattern input <->
  exists sign int point frac : string,
    input = (sign ++ int ++ point ++ frac)%string
    /\ (sign = "" \/ sign = "-")
    /\ allChars isDigit int = true
    /\ (point = "" \/ point = ".")
    /\ allChars isDigit frac = true
    /\ frac <> "".
Proof.
  unfold numberPattern. split.
  - intros H.
    apply Matches_Seq_inv in H as (sign & rest1 & -> & Hsign & H).
    apply Matches_Seq_inv in H as (int & rest2 & -> & Hint & H).
    apply Matches_Seq_inv in H as (point & frac & -> & Hpoint & Hfrac).
    apply Matches_Opt_Chr in Hsign, Hpoint.
    apply Matches_Star_Class in Hint.
    apply Matches_Plus_Class in Hfrac as [Hfrac Hne].
    exists sign, int, point, frac. auto 10.
  - intros (sign & int & point & frac & -> & Hsign & Hint & Hpoint & Hfrac & Hne).
    constructor; [now apply Matches_Opt_Chr|].
    constructor; [now apply Matches_Star_Class|].
    constructor; [now apply Matches_Opt_Chr|].
    now apply Matches_Plus_Class.
Qed.

(** X1. [isValidNumberString] accepts exactly the strings made of an
    optional minus sign, any number of digits, an optional point and at
    least one digit: a sign alone, a trailing point, two points, an
    exponent or a blank are refused, and a leading point is accepted. *)
Theorem isValidNumberString_shape (input : string) :
  isValidNumberString input = true <->
  exists sign int point frac : string,
    input = (sign ++ int ++ point ++ frac)%string
    /\ (sign = "" \/ sign = "-")
    /\ allChars isDigit int = true
    /\ (point = "" \/ point = ".")
    /\ allChars isDigit frac = true
    /\ frac <> "".
Proof.
  unfold isValidNumberString. rewrite test_Matches.
  apply numberPattern_language.
Qed.

Example isValidNumberString_examples :
  isValidNumberString "123.45" = true
  /\ isValidNumberString "-123.45" = true
  /\ isValidNumberString "12.34.56" = false
  /\ isValidNumberString "abc" = false
  /\ isValidNumberString ".5" = true
  /\ isValidNumberString "5." = false
  /\ isValidNumberString "" = false
  /\ isValidNumberString "-" = false.
Proof. repeat split. Qed.

(** sanitizeInput *)

Lemma allChars_impl (p q : ascii -> bool) (s : string) :
  (forall c, p c = true -> q c = true) ->
  allChars p s = true -> allChars q s = true.
Proof.
  intros Hpq. induction s as [|c s IH]; simpl; [reflexivity|].
  intros H. apply andb_true_iff in H as [Hc Hs].
  rewrite (Hpq c Hc). now apply IH.
Qed.

Lemma removeAllNot_allChars (keep : ascii -> bool) (s : string) :
  allChars keep (removeAllNot keep s) = true.
Proof.
  induction s as [|c s IH]; simpl; [reflexivity|].
  destruct (keep c) eqn:Hc; simpl; [rewrite Hc|]; assumption.
Qed.

Lemma removeAllNot_id (keep : ascii -> bool) (s : string) :
  allChars keep s = true -> removeAllNot keep s = s.
Proof.
  induction s as [|c s IH]; simpl; [reflexivity|].
  intros H. apply andb_true_iff in H as [Hc Hs]. rewrite Hc. now rewrite IH.
Qed.

Lemma removeAllNot_app (keep : ascii -> bool) (a b : string) :
  removeAllNot keep (a ++ b)
  = (removeAllNot keep a ++ removeAllNot keep b)%string.
Proof.
  induction a as [|c a IH]; [reflexivity|].
  rewrite append_String. simpl. destruct (keep c); [|assumption].
  rewrite append_String. now rewrite IH.
Qed.

Lemma removeAllNot_length (keep : ascii -> bool) (s : string) :
  (String.length (removeAllNot keep s) <= String.length s)%nat.
Proof.
  induction s as [|c s IH]; simpl; [lia|]. destruct (keep c); simpl; lia.
Qed.


Example sanitizeInput_examples :
  sanitizeInput "$1,234.56" = "1234.56"
  /\ sanitizeInput "100 EUR" = "100"
  /\ sanitizeInput "1.234,56" = "1.23456"
  /\ sanitizeInput "€ -5" = "-5"
  /\ sanitizeInput "abc" = "".
Proof. repeat split. Qed.

Lemma ascii_forall (P : ascii -> bool) :
  forallb P allAscii = true -> forall c, P c = true.
Proof. intros H c. rewrite forallb_forall in H. apply H, in_allAscii. Qed.

Lemma isDigit_not_minus_point (c : ascii) :
  isDigit c = true -> Ascii.eqb c "-" = false /\ Ascii.eqb c "." = false.
Proof.
  intros H.
  pose proof (ascii_forall
    (fun c => implb (isDigit c)
                (negb (Ascii.eqb c "-") && negb (Ascii.eqb c ".")))
    ltac:(vm_compute; reflexivity) c) as Hc.
  cbv beta in Hc. rewrite H in Hc. simpl in Hc.
  apply andb_true_iff in Hc as [H1 H2].
  split; now apply negb_true_iff.
Qed.

Lemma isDigit_isNumericChar (c : ascii) :
  isDigit c = true -> isNumericChar c = true.
Proof. intros H. unfold isNumericChar. now rewrite H. Qed.

Lemma removeFirst_digits_point (s : string) :
  allChars (fun c => isDigit c || Ascii.eqb c ".") s = true ->
  removeFirst "-" s = s.
Proof.
  induction s as [|c s IH]; simpl; [reflexivity|].
  intros H. apply andb_true_iff in H as [Hc Hs].
  assert (Ascii.eqb c "-" = false) as ->.
  { apply orb_true_iff in Hc as [Hc|Hc].
    - now apply isDigit_not_minus_point.
    - apply Ascii.eqb_eq in Hc. subst c. reflexivity. }
  now rewrite IH.
Qed.

Lemma split_head_digits_point (s : string) :
  allChars (fun c => isDigit c || Ascii.eqb c ".") s = true ->
  exists parts, split "." s = leadingDigits s :: parts.
Proof.
  induction s as [|c s IH]; simpl; [eauto|].
  intros H. apply andb_true_iff in H as [Hc Hs].
  destruct (IH Hs) as [parts Hparts].
  apply orb_true_iff in Hc as [Hc|Hc].
  - destruct (isDigit_not_minus_point c Hc) as [_ ->]. rewrite Hc, Hparts. eauto.
  - rewrite Hc. apply Ascii.eqb_eq in Hc. subst c. simpl. eauto.
Qed.

(** X3. For a string [isValidNumberString] accepts,
    [countDigitsBeforeDecimal] is the number of digits between the
    optional sign and the point (or the end), and [sanitizeInput] leaves
    the string as it is. *)
Theorem countDigitsBeforeDecimal_valid (input : string) :
  isValidNumberString input = true ->
  countDigitsBeforeDecimal input
  = String.length (leadingDigits (dropMinus input))
  /\ allChars isDigit (leadingDigits (dropMinus input)) = true
  /\ sanitizeInput input = input.
Proof.
  intros H. unfold isValidNumberString in H.
  apply test_Matches, numberPattern_language in H
    as (sign & int & point & frac & -> & Hsign & Hint & Hpoint & Hfrac & Hne).
  assert (Hbody : allChars (fun c => isDigit c || Ascii.eqb c ".")
                    (int ++ point ++ frac) = true).
  { rewrite !allChars_app.
    rewrite (allChars_impl isDigit _ int), (allChars_impl isDigit _ frac);
      try assumption; try (intros c Hc; now rewrite Hc).
    destruct Hpoint as [-> | ->]; reflexivity. }
  assert (Hclean : removeFirst "-" (sign ++ int ++ point ++ frac)
                   = (int ++ point ++ frac)%string
                   /\ dropMinus (sign ++ int ++ point ++ frac)
                      = (int ++ point ++ frac)%string).
  { destruct Hsign as [-> | ->].
    - rewrite append_empty_l. split; [now apply removeFirst_digits_point|].
      destruct (int ++ point ++ frac)%string as [|c t] eqn:E; [reflexivity|].
      simpl in Hbody. apply andb_true_iff in Hbody as [Hc _].
      unfold dropMinus.
      destruct (Ascii.eqb_spec c "-") as [->|Hc']; [discriminate Hc|].
      destruct c as [[] [] [] [] [] [] [] []]; try reflexivity. contradiction.
    - split; reflexivity. }
  destruct Hclean as [Hrm Hdrop].
  unfold countDigitsBeforeDecimal. rewrite Hrm, Hdrop.
  destruct (split_head_digits_point _ Hbody) as [parts ->].
  split; [reflexivity|]. split.
  - clear. induction (int ++ point ++ frac)%string as [|c t IH]; simpl;
      [reflexivity|].
    destruct (isDigit c) eqn:Hc; simpl; [rewrite Hc|]; auto.
  - apply removeAllNot_id. rewrite allChars_app.
    apply andb_true_iff. split.
    + destruct Hsign as [-> | ->]; reflexivity.
    + apply (allChars_impl (fun c => isDigit c || Ascii.eqb c "."));
        [|assumption].
      intros c Hc. unfold isNumericChar. cbv beta in Hc. now rewrite Hc.
Qed.

Lemma countDigitsBeforeDecimal_valid_witness :
  isValidNumberString "-1234.56" = true
  /\ countDigitsBeforeDecimal "-1234.56" = 4%nat
  /\ countDigitsBeforeDecimal "-1234.56"
     = String.length (leadingDigits (dropMinus "-1234.56"))
  /\ allChars isDigit (leadingDigits (dropMinus "-1234.56")) = true
  /\ sanitizeInput "-1234.56" = "-1234.56".
Proof.
  split; [reflexivity|]. split; [reflexivity|].
  apply (countDigitsBeforeDecimal_valid "-1234.56"). reflexivity.
Defined.

Example countDigitsBeforeDecimal_examples :
  countDigitsBeforeDecimal "1234.56" = 4%nat
  /\ countDigitsBeforeDecimal "-1234.56" = 4%nat
  /\ countDigitsBeforeDecimal "0.56" = 1%nat
  /\ countDigitsBeforeDecimal ".5" = 0%nat
  /\ countDigitsBeforeDecimal "" = 0%nat
  /\ countDigitsBeforeDecimal "1234567890123456" = 16%nat.
Proof. repeat split. Qed.

(** ** Relative times *)

Lemma decimalDigits_head (n : Z) :
  exists c rest, decimalDigits n = String c rest /\ isDigit c = true.
Proof.
  destruct (decimalDigits_digits n) as [H Hne].
  destruct (decimalDigits n) as [|c rest]; [contradiction|].
  simpl in H. apply andb_true_iff in H as [Hc _]. eauto.
Qed.

Lemma counted_not_just_now (n : Z) (unit : string) :
  0 <= n -> (integerToString n ++ unit)%string <> "just now".
Proof.
  intros Hn. unfold integerToString.
  destruct (Z.ltb_spec n 0); [lia|].
  destruct (decimalDigits_head n) as (c & rest & -> & Hc).
  rewrite append_String. intros [= -> _]. discriminate Hc.
Qed.

Lemma seconds_lt (age k : Z) :
  0 < k -> (age `div` 1000 < k <-> age < k * 1000).
Proof. intros Hk. Z.to_euclidean_division_equations. lia. Qed.

Lemma integerToString_nonneg (n : Z) :
  0 <= n -> integerToString n = decimalDigits n.
Proof.
  intros Hn. unfold integerToString.
  destruct (Z.ltb_spec n 0); [lia | reflexivity].
Qed.

Lemma getRelativeTime_just_now (now timestamp : Z) :
  DateUtils.getRelativeTime now timestamp = "just now"
  <-> now - timestamp < 60000.
Proof.
  unfold DateUtils.getRelativeTime.
  pose proof (seconds_lt (now - timestamp) 60 ltac:(lia)) as H60.
  destruct (Z.ltb_spec ((now - timestamp) `div` 1000) 60) as [Hlt|Hge].
  - split; [intros _; apply H60; exact Hlt | reflexivity].
  - split; [|intros Hc; apply H60 in Hc; lia].
    intros Hc. exfalso. revert Hc.
    destruct (_ <? 3600); [|destruct (_ <? 86400)];
      apply counted_not_just_now;
      Z.to_euclidean_division_equations; lia.
Qed.


Example getRelativeTime_examples :
  DateUtils.getRelativeTime T0 (T0 - 30000) = "just now"
  /\ DateUtils.getRelativeTime T0 (T0 + 5000) = "just now"
  /\ DateUtils.getRelativeTime T0 (T0 - 60000) = "1 minutes ago"
  /\ DateUtils.getRelativeTime T0 (T0 - 120000) = "2 minutes ago"
  /\ DateUtils.getRelativeTime T0 (T0 - 7200000) = "2 hours ago"
  /\ DateUtils.getRelativeTime T0 (T0 - 30 * 86400000) = "30 days ago".
Proof. repeat split. Qed.

(** ** The conversion hook *)

Import useConversion.

Lemma step_keeps_distinct (st : State) (a : Action) :
  fromCurrency st <> toCurrency st ->
  fromCurrency (step st a) <> toCurrency (step st a).
Proof.
  intros H. destruct a as [v|c|c| |d r]; simpl.
  - exact H.
  - unfold handleFromCurrencyChange.
    destruct (String.eqb_spec c (toCurrency st)); simpl; congruence.
  - unfold handleToCurrencyChange.
    destruct (String.eqb_spec c (fromCurrency st)); simpl; congruence.
  - congruence.
  - unfold conversionEffect. destruct (_ || _); simpl; exact H.
Qed.

Lemma step_keeps_no_result (st : State) (a : Action) :
  result st = None /\ conversionError st = None ->
  result (step st a) = None /\ conversionError (step st a) = None.
Proof.
  intros H. destruct a as [v|c|c| |d r]; simpl.
  - exact H.
  - unfold handleFromCurrencyChange. destruct (String.eqb _ _); exact H.
  - unfold handleToCurrencyChange. destruct (String.eqb _ _); exact H.
  - exact H.
  - unfold conversionEffect. destruct (_ || _); [split; reflexivity | exact H].
Qed.

Lemma run_snoc (st : State) (actions : list Action) (a : Action) :
  run st (actions ++ [a]) = step (run st actions) a.
Proof. unfold run. now rewrite fold_left_app. Qed.

(** X5. Whatever sequence of events the hook handles, the source and
    the target currency stay different once they are, as they are at the
    first render. *)
Theorem useConversion_currencies_stay_distinct
    (st : State) (actions : list Action) :
  fromCurrency st <> toCurrency st ->
  fromCurrency (run st actions) <> toCurrency (run st actions).
Proof.
  revert st. induction actions as [|a actions IH]; intros st H; [exact H|].
  apply (IH (step st a)), step_keeps_distinct, H.
Qed.

Lemma useConversion_currencies_stay_distinct_witness :
  let actions := [SetFromCurrency "EUR"; SetAmount "10"; SetToCurrency "EUR";
                  Swap; SetToCurrency "GBP"; SetFromCurrency "GBP"] in
  fromCurrency initial <> toCurrency initial
  /\ fromCurrency (run initial actions) = "GBP"
  /\ toCurrency (run initial actions) = "EUR"
  /\ fromCurrency (run initial actions) <> toCurrency (run initial actions).
Proof.
  split; [discriminate|]. split; [reflexivity|]. split; [reflexivity|].
  apply (useConversion_currencies_stay_distinct initial); discriminate.
Defined.

(** X6. Whatever sequence of events the hook handles from its first
    render, its result stays [null] and so does its conversion error. *)
Theorem useConversion_never_has_result (actions : list Action) :
  result (run initial actions) = None
  /\ conversionError (run initial actions) = None.
Proof.
  induction actions as [|a actions IH] using rev_ind.
  - split; reflexivity.
  - rewrite run_snoc. apply step_keeps_no_result, IH.
Qed.

(** X7. A chosen currency is the one selected afterwards; choosing the
    currency of the other side exchanges the two, and any other choice
    leaves the other side; swapping twice restores the state, and none of
    this touches the amount. *)
Theorem useConversion_selection (st : State) (c : CurrencyCode) :
  fromCurrency (handleFromCurrencyChange st c) = c
  /\ toCurrency (handleToCurrencyChange st c) = c
  /\ (c <> toCurrency st ->
      toCurrency (handleFromCurrencyChange st c) = toCurrency st)
  /\ (c <> fromCurrency st ->
      fromCurrency (handleToCurrencyChange st c) = fromCurrency st)
  /\ toCurrency (handleFromCurrencyChange st (toCurrency st)) = fromCurrency st
  /\ fromCurrency (handleToCurrencyChange st (fromCurrency st)) = toCurrency st
  /\ swap (swap st) = st
  /\ amount (handleFromCurrencyChange st c) = amount st
  /\ amount (handleToCurrencyChange st c) = amount st
  /\ amount (swap st) = amount st.
Proof.
  unfold handleFromCurrencyChange, handleToCurrencyChange.
  rewrite !String.eqb_refl.
  destruct (String.eqb_spec c (toCurrency st)),
           (String.eqb_spec c (fromCurrency st));
    destruct st; simpl in *; subst; repeat split; congruence.
Qed.
